(** * ratchet: the SQLite writer

    A shallow embedding of [util/sqlite.go] (statement compiler and batch
    executor) and of the [SQLiteWriter] / [SQLReaderSQLiteWriter] pipeline
    stages, with the properties of the specification stated over it. *)

From Stdlib Require Import ZArith Lia.
From stdpp Require Import base option list sorting strings gmap.
From Equations Require Import Equations.

Local Open Scope Z_scope.
Local Set Warnings "-register-all".

(** ** Go values, errors and library functions *)

(** What [encoding/json] decodes into an [interface{}]: [nil], booleans,
    numbers, strings, slices and maps.  Numbers are opaque to the writer (they
    are only passed on to the driver), so an integer stands for them. *)
Inductive value : Type :=
| VNil
| VBool (b : bool)
| VNum (n : Z)
| VStr (s : string)
| VArr (vs : list value)
| VObj (kvs : list (string * value)).

(** [map[string]interface{}]: one record of a batch. *)
Abbreviation object := (gmap string value).

(** The errors that reach the writer.  [ConfigError] and [MissingKeyError]
    are the two [errors.New] values of [util/sqlite.go]; the others come from
    the [data] package and from the driver. *)
Inductive error : Type :=
| ConfigError
| MissingKeyError (col : string)
| ParseError (msg : string)
| StoreError (msg : string).

(** The text carried by the error ([err.Error()]). *)
Definition Error (e : error) : string :=
  match e with
  | ConfigError => "primaryKeys required if preservedFields specified"
  | MissingKeyError col => "Missing value for primary key: " +:+ col
  | ParseError msg => msg
  | StoreError msg => msg
  end.

(** Reading a [map[string]bool]: a missing key reads as [false]. *)
Definition mapGet (m : gmap string bool) (k : string) : bool :=
  default false (m !! k).

(** [for _, x := range xs { m[x] = true }] *)
Definition markAll (xs : list string) (m : gmap string bool) : gmap string bool :=
  foldl (fun m x => <[x := true]> m) m xs.

(** [strings.Join] *)
Definition Join (elems : list string) (sep : string) : string :=
  String.concat sep elems.

(** [sort.Strings]: ascending, bytewise lexicographic order. *)
Definition sort_Strings (xs : list string) : list string :=
  merge_sort String.le xs.

(** Modelled from the spec: [sortedColumns] is declared in another file of the
    package ([util/sql.go]).  The Column Set Resolver "takes the union of all
    keys appearing in any record of the batch" and sorts it
    "lexicographically by byte value". *)
Definition sortedColumns (objects : list object) : list string :=
  sort_Strings (elements (⋃ (dom <$> objects) : gset string)).

(** ** The statement compiler: [buildSQLiteInsertSQL] *)

Module util.

(** Lines 120-126: the loop over [preservedFields].  [colMap] is read but
    never written here. *)
Definition preservedLoop (colMap : gmap string bool) (preservedFields : list string)
    (preservedFieldMap : gmap string bool) (cols : list string)
    : gmap string bool * list string :=
  foldl (fun '(pfm, cols) pf =>
           (<[pf := true]> pfm,
            if negb (mapGet colMap pf) then cols ++ [pf] else cols))
        (preservedFieldMap, cols) preservedFields.

(** Lines 110-127: the column list of the statement, as
    [buildSQLiteInsertSQL] below computes it. *)
Definition columns (objects : list object) (preservedFields : list string)
    : list string :=
  let cols := sortedColumns objects in
  let colMap := markAll cols ∅ in
  sort_Strings (preservedLoop colMap preservedFields ∅ cols).2.

(** Lines 164-170: the [WHERE] clause of a correlated subquery. *)
Fixpoint whereLoop (k : nat) (primaryKeys : list string)
    (qs : string) (valCols : list string) : string * list string :=
  match primaryKeys with
  | [] => (qs, valCols)
  | pk :: rest =>
      let qs := if (0 <? k)%nat then qs +:+ "AND " else qs in
      let qs := qs +:+ (pk +:+ " = ?") in
      whereLoop (S k) rest qs (valCols ++ [pk])
  end.

(** Lines 155-178: one placeholder per column. *)
Fixpoint placeholderLoop (tableName : string) (onDupKeyUpdate : bool)
    (primaryKeys : list string) (preservedFieldMap : gmap string bool)
    (i : nat) (cols : list string)
    (qs : string) (valCols : list string) : string * list string :=
  match cols with
  | [] => (qs, valCols)
  | c :: rest =>
      let qs := if (0 <? i)%nat then qs +:+ "," else qs in
      let '(qs, valCols) :=
        if onDupKeyUpdate && mapGet preservedFieldMap c then
          let qs := qs +:+ ("(SELECT " +:+ c +:+ " FROM " +:+ tableName +:+ " WHERE ") in
          let '(qs, valCols) := whereLoop 0 primaryKeys qs valCols in
          (qs +:+ ")", valCols)
        else
          (qs +:+ "?", valCols ++ [c]) in
      placeholderLoop tableName onDupKeyUpdate primaryKeys preservedFieldMap
        (S i) rest qs valCols
  end.

(** Lines 181-186: the row template once per object. *)
Fixpoint rowsLoop {A} (i : nat) (objects : list A) (qs insertSQL : string) : string :=
  match objects with
  | [] => insertSQL
  | _ :: rest =>
      let insertSQL := if (0 <? i)%nat then insertSQL +:+ "," else insertSQL in
      rowsLoop (S i) rest qs (insertSQL +:+ qs)
  end.

(** Lines 190-201: the arguments of one object; stops at a missing primary
    key. *)
Fixpoint valColsLoop (primaryKeyMap : gmap string bool) (obj : object)
    (valCols : list string) (vals : list value) : list value * option error :=
  match valCols with
  | [] => (vals, None)
  | col :: rest =>
      match obj !! col with
      | Some val => valColsLoop primaryKeyMap obj rest (vals ++ [val])
      | None =>
          if mapGet primaryKeyMap col then (vals, Some (MissingKeyError col))
          else valColsLoop primaryKeyMap obj rest (vals ++ [VNil])
      end
  end.

(** Lines 189-202. *)
Fixpoint objectsLoop (primaryKeyMap : gmap string bool) (objects : list object)
    (valCols : list string) (vals : list value) : list value * option error :=
  match objects with
  | [] => (vals, None)
  | obj :: rest =>
      match valColsLoop primaryKeyMap obj valCols vals with
      | (vals, Some e) => (vals, Some e)
      | (vals, None) => objectsLoop primaryKeyMap rest valCols vals
      end
  end.

(** The row template [qs] and the columns [valCols] whose values are bound,
    as lines 151-179 leave them. *)
Definition rowTemplate (tableName : string) (onDupKeyUpdate : bool)
    (primaryKeys : list string) (preservedFieldMap : gmap string bool)
    (cols : list string) : string * list string :=
  let '(qs, valCols) :=
    placeholderLoop tableName onDupKeyUpdate primaryKeys preservedFieldMap
      0 cols "(" [] in
  (qs +:+ ")", valCols).

(** [buildSQLiteInsertSQL] returns its three named results; on a missing
    primary key the naked [return] hands back the statement text and the
    arguments gathered so far together with the error. *)
Definition buildSQLiteInsertSQL (objects : list object) (tableName : string)
    (onDupKeyUpdate : bool) (primaryKeys preservedFields : list string)
    : string * list value * option error :=
  let cols := sortedColumns objects in
  let colMap := markAll cols ∅ in
  let '(preservedFieldMap, cols) :=
    preservedLoop colMap preservedFields ∅ cols in
  let cols := sort_Strings cols in
  let primaryKeyMap := markAll primaryKeys ∅ in
  let insertSQL :=
    if onDupKeyUpdate
    then "INSERT OR REPLACE INTO " +:+ tableName +:+ "(" +:+ Join cols "," +:+ ") VALUES"
    else "INSERT INTO " +:+ tableName +:+ "(" +:+ Join cols "," +:+ ") VALUES" in
  let '(qs, valCols) :=
    rowTemplate tableName onDupKeyUpdate primaryKeys preservedFieldMap cols in
  let insertSQL := rowsLoop 0 objects qs insertSQL in
  let '(vals, err) := objectsLoop primaryKeyMap objects valCols [] in
  (insertSQL, vals, err).

End util.

(** ** The store, as the executor sees it *)

(** What the writer asks of [sqlx]: one entry per call, in call order.
    [EvPrepare] and [EvExec] record whether the driver accepted the call. *)
Inductive event : Type :=
| EvBegin
| EvPrepare (sql : string) (ok : bool)
| EvExec (sql : string) (args : list value) (ok : bool)
| EvClose
| EvCommit
| EvRollback.

(** [sql.Result] *)
Record Result : Type := {
  LastInsertId : Z * option error;
  RowsAffected : Z * option error;
}.

(** The driver is outside the repository: its answers are a parameter, and
    may depend on everything the connection has been asked so far. *)
Class Store : Type := {
  Beginx : list event → option error;
  Preparex : list event → string → option error;
  Exec : list event → string → list value → Result * option error;
}.

(** The [data] package is in another directory of the repository: its three
    functions used by the writer are parameters.  [ParseJSON] is the call of
    line 252, which decodes into a [SQLWriterData]. *)
Module SQLWriterData.
Record t : Type := { TableName : string; InsertData : value }.
End SQLWriterData.

Class DataPkg (JSON : Type) : Type := {
  ObjectsFromJSON : JSON → list object * option error;
  ParseJSON : JSON → SQLWriterData.t * option error;
  NewJSON : value → JSON * option error;
}.

(** Modelled from the spec: [SQLReader.ForEachQueryData] is declared in
    another file of package [processors].  The reader "first produces
    zero-or-more query result batches per input item", on each of which the
    callback runs "in turn". *)
Class SQLReader (JSON : Type) : Type := {
  QueryData : JSON → list JSON;
}.

(** How a call ends: [return err], or a panic carrying an error. *)
Inductive outcome : Type :=
| Return (err : option error)
| Panic (e : error).

(** [objects[i:j]]; at its one call site [0 <= i < j <= len(objects)]. *)
Definition slice {A} (l : list A) (i j : Z) : list A :=
  take (Z.to_nat (j - i)) (drop (Z.to_nat i) l).

Definition len {A} (l : list A) : Z := Z.of_nat (length l).

Module exec.
Section Executor.
Context `{Store}.

(** [sqliteInsertObjects], lines 64-104.  The deferred [stmt.Close()] runs
    on every path after a successful prepare. *)
Definition sqliteInsertObjects (tr : list event) (objects : list object)
    (tableName : string) (onDupKeyUpdate : bool)
    (primaryKeys preservedFields : list string)
    : option error * list event :=
  let '(insertSQL, vals, err) :=
    util.buildSQLiteInsertSQL objects tableName onDupKeyUpdate
      primaryKeys preservedFields in
  match err with
  | Some e => (Some e, tr)
  | None =>
      match Preparex tr insertSQL with
      | Some e => (Some e, tr ++ [EvPrepare insertSQL false])
      | None =>
          let tr := tr ++ [EvPrepare insertSQL true] in
          let '(res, err) := Exec tr insertSQL vals in
          match err with
          | Some e => (Some e, tr ++ [EvExec insertSQL vals false; EvClose])
          | None =>
              let tr := tr ++ [EvExec insertSQL vals true] in
              match (LastInsertId res).2 with
              | Some e => (Some e, tr ++ [EvClose])
              | None =>
                  match (RowsAffected res).2 with
                  | Some e => (Some e, tr ++ [EvClose])
                  | None => (None, tr ++ [EvClose])
                  end
              end
          end
      end
  end.

(** The loop of lines 43-54, entered only under [batchSize > 0].  A failing
    chunk rolls back and returns from inside the loop.  The index [i] is 0 or
    at least [batchSize], and below [len(objects)] in the body, so [i +
    batchSize] stays within the machine integers (see [chunk_index_no_wrap])
    and is written without wrap-around. *)
Equations? chunkLoop (batchSize : Z) (Hpos : batchSize > 0)
    (objects : list object) (tableName : string) (onDupKeyUpdate : bool)
    (primaryKeys preservedFields : list string)
    (i : Z) (tr : list event) : option error * list event
    by wf (Z.to_nat (len objects - i)) lt :=
chunkLoop batchSize Hpos objects tableName onDupKeyUpdate primaryKeys
    preservedFields i tr with decide (i < len objects) := {
  | right _ => (None, tr)
  | left Hlt =>
      let maxIndex := i + batchSize in
      let maxIndex :=
        if decide (maxIndex > len objects) then len objects else maxIndex in
      match sqliteInsertObjects tr (slice objects i maxIndex) tableName
              onDupKeyUpdate primaryKeys preservedFields with
      | (Some e, tr) => (Some e, tr ++ [EvRollback])
      | (None, tr) =>
          chunkLoop batchSize Hpos objects tableName onDupKeyUpdate
            primaryKeys preservedFields (i + batchSize) tr
      end }.
Proof. lia. Qed.

Context {JSON : Type} `{DataPkg JSON}.

(** [SQLiteInsertData], lines 26-62.  [db.MustBegin()] panics when the
    driver refuses the transaction.  The results of [tx.Commit()] and
    [tx.Rollback()] are dropped by the code. *)
Definition SQLiteInsertData (tr : list event) (d : JSON) (tableName : string)
    (onDupKeyUpdate : bool) (primaryKeys preservedFields : list string)
    (batchSize : Z) : outcome * list event :=
  if bool_decide (len preservedFields > 0) && bool_decide (len primaryKeys = 0)
  then (Return (Some ConfigError), tr)
  else
    let '(objects, err) := ObjectsFromJSON d in
    match err with
    | Some e => (Return (Some e), tr)
    | None =>
        match Beginx tr with
        | Some e => (Panic e, tr)
        | None =>
            let tr := tr ++ [EvBegin] in
            match decide (batchSize > 0) with
            | left Hpos =>
                match chunkLoop batchSize Hpos objects tableName
                        onDupKeyUpdate primaryKeys preservedFields 0 tr with
                | (Some e, tr) => (Return (Some e), tr)
                | (None, tr) => (Return None, tr ++ [EvCommit])
                end
            | right _ =>
                let tr := tr ++ [EvCommit] in
                let '(err, tr) :=
                  sqliteInsertObjects tr objects tableName onDupKeyUpdate
                    primaryKeys preservedFields in
                (Return err, tr)
            end
        end
    end.
End Executor.
End exec.

(** ** The pipeline stages *)

Module processors.

(** [SQLiteWriter]; [writeDB] is the connection whose history the stage
    threads through. *)
Record SQLiteWriter : Type := {
  TableName : string;
  OnDupKeyUpdate : bool;
  PrimaryKeys : list string;
  PreservedFields : list string;
  ConcurrencyLevel : Z;
  BatchSize : Z;
}.

Definition NewSQLiteWriter (tableName : string) : SQLiteWriter :=
  {| TableName := tableName; OnDupKeyUpdate := true;
     PrimaryKeys := []; PreservedFields := [];
     ConcurrencyLevel := 0; BatchSize := 100 |}.

(** What a stage can touch: the connection, and what has been sent on the
    output channel and on the kill channel, oldest first. *)
Record world (JSON : Type) : Type := {
  db : list event;
  outputChan : list JSON;
  killChan : list error;
}.
Arguments db {JSON}.
Arguments outputChan {JSON}.
Arguments killChan {JSON}.

Section Stages.
Context `{Store} {JSON : Type} `{DataPkg JSON} `{SQLReader JSON}.

(** Modelled from the spec: [util.KillPipelineIfErr] is declared in
    another file of package [util].  A failure "pushes exactly one error
    onto a shared cancellation signal"; a nil error does nothing. *)
Definition KillPipelineIfErr (err : option error) (w : world JSON) : world JSON :=
  match err with
  | Some e => {| db := db w; outputChan := outputChan w;
                 killChan := killChan w ++ [e] |}
  | None => w
  end.

(** Lines 258-259 and 262-263: the insert and the report of its error.
    A panic of [SQLiteInsertData] ends [ProcessData] in the deferred
    function of lines 244-248, which reports the recovered error. *)
Definition insertData (s : SQLiteWriter) (d : JSON) (tableName : string)
    (w : world JSON) : world JSON :=
  match exec.SQLiteInsertData (db w) d tableName (OnDupKeyUpdate s)
          (PrimaryKeys s) (PreservedFields s) (BatchSize s) with
  | (Return err, tr) =>
      KillPipelineIfErr err
        {| db := tr; outputChan := outputChan w; killChan := killChan w |}
  | (Panic e, tr) =>
      KillPipelineIfErr (Some e)
        {| db := tr; outputChan := outputChan w; killChan := killChan w |}
  end.

Definition isNil (v : value) : bool :=
  match v with VNil => true | _ => false end.

(** [SQLiteWriter.ProcessData], lines 242-266. *)
Definition ProcessData (s : SQLiteWriter) (d : JSON) (w : world JSON)
    : world JSON :=
  let '(wd, err) := ParseJSON d in
  if bool_decide (err = None)
     && negb (String.eqb (SQLWriterData.TableName wd) "")
     && negb (isNil (SQLWriterData.InsertData wd))
  then
    let '(dd, err) := NewJSON (SQLWriterData.InsertData wd) in
    let w := KillPipelineIfErr err w in
    insertData s dd (SQLWriterData.TableName wd) w
  else
    insertData s d (TableName s) w.

(** The callback of [SQLReaderSQLiteWriter.ProcessData], lines 40-43. *)
Definition forEach (s : SQLiteWriter) (d : JSON) (w : world JSON) : world JSON :=
  let w := ProcessData s d w in
  {| db := db w; outputChan := outputChan w ++ [d]; killChan := killChan w |}.

(** [SQLReaderSQLiteWriter.ProcessData], lines 39-44. *)
Definition SQLReaderSQLiteWriter_ProcessData (s : SQLiteWriter) (d : JSON)
    (w : world JSON) : world JSON :=
  foldl (fun w d => forEach s d w) w (QueryData d).
End Stages.
End processors.

(** ** Notions used to state the properties *)

(** The statements a history leaves in the store.  A transaction gathers the
    statements the driver accepted; [Commit] makes them durable, [Rollback]
    drops them, and a statement issued on a transaction that is already
    finished leaves nothing. *)
Definition txStep (st : option (list (string * list value)) * list (string * list value))
    (ev : event) : option (list (string * list value)) * list (string * list value) :=
  match ev, st.1 with
  | EvBegin, _ => (Some [], st.2)
  | EvExec sql args true, Some p => (Some (p ++ [(sql, args)]), st.2)
  | EvCommit, Some p => (None, st.2 ++ p)
  | EvCommit, None => (None, st.2)
  | EvRollback, _ => (None, st.2)
  | _, _ => st
  end.

Definition written (tr : list event) : list (string * list value) :=
  (foldl txStep (None, []) tr).2.

(** The statements handed to the driver for execution, accepted or not. *)
Definition executed (tr : list event) : list (string * list value) :=
  omap (fun ev => match ev with
                  | EvExec sql args _ => Some (sql, args)
                  | _ => None
                  end) tr.

(** The events that open or close a transaction. *)
Definition isTxEvent (ev : event) : bool :=
  match ev with EvBegin | EvCommit | EvRollback => true | _ => false end.

(** What one call of [sqliteInsertObjects] adds to the history when the
    chunk compiles to [(sql, args)] and the driver accepts it. *)
Definition chunkEvents (stmt : string * list value) : list event :=
  [EvPrepare stmt.1 true; EvExec stmt.1 stmt.2 true; EvClose].

(** A batch cut into consecutive chunks of [n] records, the last one
    possibly shorter. *)
Fixpoint chunksFrom {A} (fuel n : nat) (l : list A) : list (list A) :=
  match fuel, l with
  | S fuel, _ :: _ => take n l :: chunksFrom fuel n (drop n l)
  | _, _ => []
  end.

Definition chunks {A} (n : nat) (l : list A) : list (list A) :=
  chunksFrom (length l) n l.

(** Chunks compiled and executed in sequence until one fails. *)
Fixpoint runChunks `{Store} (tr : list event) (cs : list (list object))
    (tableName : string) (onDupKeyUpdate : bool)
    (primaryKeys preservedFields : list string) : option error * list event :=
  match cs with
  | [] => (None, tr)
  | c :: cs =>
      match exec.sqliteInsertObjects tr c tableName onDupKeyUpdate
              primaryKeys preservedFields with
      | (Some e, tr) => (Some e, tr)
      | (None, tr) =>
          runChunks tr cs tableName onDupKeyUpdate primaryKeys preservedFields
      end
  end.

(** ** Instances used to run the code on concrete inputs *)

Definition record (kvs : list (string * value)) : object := list_to_map kvs.

(** A driver that accepts every call. *)
Definition okResult : Result :=
  {| LastInsertId := (0, None); RowsAffected := (0, None) |}.

Definition okStore : Store :=
  {| Beginx := fun _ => None;
     Preparex := fun _ _ => None;
     Exec := fun _ _ _ => (okResult, None) |}.

(** A driver that refuses the second statement it is asked to execute. *)
Definition secondExecFails : Store :=
  {| Beginx := fun _ => None;
     Preparex := fun _ _ => None;
     Exec := fun tr _ _ =>
       if bool_decide (length (executed tr) = 1%nat)
       then (okResult, Some (StoreError "constraint failed"))
       else (okResult, None) |}.

(** Modelled from the spec: the [data] package is in another directory.  A
    document is held decoded.  The input payload is "a structured object, or
    an array of structured objects"; anything else is a [ParseError].  A
    routed envelope is "{ table: string, payload: object|array }". *)
Definition asObject (v : value) : option object :=
  match v with
  | VObj kvs => Some (list_to_map (reverse kvs))
  | _ => None
  end.

Definition objectsOf (v : value) : list object * option error :=
  match v with
  | VObj _ => (default [] (mapM asObject [v]), None)
  | VArr vs =>
      match mapM asObject vs with
      | Some objs => (objs, None)
      | None => ([], Some (ParseError "unsupported data type"))
      end
  | _ => ([], Some (ParseError "unsupported data type"))
  end.

Definition envelopeOf (v : value) : SQLWriterData.t * option error :=
  match v with
  | VObj kvs =>
      let m : object := list_to_map (reverse kvs) in
      let payload := default VNil (m !! "payload") in
      match m !! "table" with
      | Some (VStr t) =>
          ({| SQLWriterData.TableName := t; SQLWriterData.InsertData := payload |}, None)
      | None | Some VNil =>
          ({| SQLWriterData.TableName := ""; SQLWriterData.InsertData := payload |}, None)
      | Some _ =>
          ({| SQLWriterData.TableName := ""; SQLWriterData.InsertData := payload |},
           Some (ParseError "cannot unmarshal into string"))
      end
  | _ =>
      ({| SQLWriterData.TableName := ""; SQLWriterData.InsertData := VNil |},
       Some (ParseError "cannot unmarshal into SQLWriterData"))
  end.

Definition decoded : DataPkg value :=
  {| ObjectsFromJSON := objectsOf;
     ParseJSON := envelopeOf;
     NewJSON := fun v => (v, None) |}.

(** A reader that yields the input item itself as its single result batch. *)
Definition echoReader : SQLReader value :=
  {| QueryData := fun d => [d] |}.

Definition emptyWorld : processors.world value :=
  {| processors.db := []; processors.outputChan := []; processors.killChan := [] |}.

Definition five : value :=
  VArr [VObj [("a", VNum 1)]; VObj [("a", VNum 2)]; VObj [("a", VNum 3)];
        VObj [("a", VNum 4)]; VObj [("a", VNum 5)]].

(** The placeholder of a preserved column under replace semantics: a
    correlated subquery with one parameter per primary key. *)
Definition subquery (tableName : string) (primaryKeys : list string)
    (c : string) : string :=
  "(SELECT " +:+ c +:+ " FROM " +:+ tableName +:+ " WHERE "
  +:+ Join ((fun pk => pk +:+ " = ?") <$> primaryKeys) "AND " +:+ ")".

(** A column is preserved when replace semantics is on and it is listed in
    [preservedFields]. *)
Definition preserved (onDupKeyUpdate : bool) (preservedFields : list string)
    (c : string) : bool :=
  onDupKeyUpdate && bool_decide (c ∈ preservedFields).

Definition placeholderOf (tableName : string) (onDupKeyUpdate : bool)
    (primaryKeys preservedFields : list string) (c : string) : string :=
  if preserved onDupKeyUpdate preservedFields c
  then subquery tableName primaryKeys c else "?".

(** The columns whose values one placeholder consumes. *)
Definition boundCols (onDupKeyUpdate : bool)
    (primaryKeys preservedFields : list string) (c : string) : list string :=
  if preserved onDupKeyUpdate preservedFields c then primaryKeys else [c].

(** The value a record binds for a column: its own, or NULL. *)
Definition valueOf (obj : object) (c : string) : value :=
  default VNil (obj !! c).

(** One row group: [(v1,...,vn)]. *)
Definition rowGroup (placeholders : list string) : string :=
  "(" +:+ Join placeholders "," +:+ ")".

(** The statement and arguments compiled for a chunk. *)
Definition stmtOf (objects : list object) (tableName : string)
    (onDupKeyUpdate : bool) (primaryKeys preservedFields : list string)
    : string * list value :=
  (util.buildSQLiteInsertSQL objects tableName onDupKeyUpdate
     primaryKeys preservedFields).1.

(** Some record lacks a value for a primary-key column among the columns the
    compiler binds for this batch. *)
Definition lacksConsultedKey (objects : list object) (tableName : string)
    (onDupKeyUpdate : bool) (primaryKeys preservedFields : list string) : Prop :=
  ∃ obj col,
    obj ∈ objects ∧ col ∈ primaryKeys ∧ obj !! col = None ∧
    col ∈ (util.rowTemplate tableName onDupKeyUpdate primaryKeys
             (markAll preservedFields ∅)
             (util.columns objects preservedFields)).2.

(** The names that are a key of some record of the batch. *)
Definition keys (objects : list object) : gset string :=
  ⋃ (dom <$> objects).

(** Batches used as examples. *)
Definition batchAB : list object :=
  [record [("a", VNum 1); ("b", VNum 2)]; record [("a", VNum 3)]].

Definition batchIdName : list object :=
  [record [("id", VNum 1); ("name", VStr "x")]].

Definition batchA : list object := [record [("a", VNum 1)]].

(** Payloads used as examples. *)
Definition one : value := VArr [VObj [("a", VNum 1)]].

Definition idRows : value :=
  VArr [VObj [("id", VNum 1)]; VObj [("id", VNum 2)];
        VObj [("id", VNum 3)]; VObj [("x", VNum 1)]].

Definition emptyTableEnvelope : value :=
  VObj [("table", VStr ""); ("payload", VArr [VObj [("a", VNum 1)]])].

(** C4 as the claim words it, for a call of the executor on a fresh
    connection: a record lacking a consulted primary key makes the call fail
    with [MissingKeyError], with no statement executed, the transaction
    rolled back and nothing written. *)
Definition missingKeyAbortsAll `{Store} {JSON : Type} `{DataPkg JSON}
    (d : JSON) (tableName : string) (onDupKeyUpdate : bool)
    (primaryKeys preservedFields : list string) (batchSize : Z) : Prop :=
  lacksConsultedKey (ObjectsFromJSON d).1 tableName onDupKeyUpdate
    primaryKeys preservedFields →
  let res := exec.SQLiteInsertData [] d tableName onDupKeyUpdate
               primaryKeys preservedFields batchSize in
  (∃ col, res.1 = Return (Some (MissingKeyError col))) ∧
  executed res.2 = [] ∧ EvRollback ∈ res.2 ∧ written res.2 = [].

(** C2 as the claim words it: when nothing fails (no error is reported on
    the kill channel), the writer stage sends the item downstream. *)
Definition forwardsOnSuccess `{Store} {JSON : Type} `{DataPkg JSON}
    (s : processors.SQLiteWriter) (d : JSON) (w : processors.world JSON) : Prop :=
  processors.killChan (processors.ProcessData s d w) = processors.killChan w →
  processors.outputChan (processors.ProcessData s d w)
  = processors.outputChan w ++ [d].

(** C3 as the claim words it: an envelope that decodes but has an empty
    table name or no payload is reported as a [ParseError]. *)
Definition incompleteEnvelopeRejected `{Store} {JSON : Type} `{DataPkg JSON}
    (s : processors.SQLiteWriter) (d : JSON) (w : processors.world JSON) : Prop :=
  (ParseJSON d).2 = None →
  SQLWriterData.TableName (ParseJSON d).1 = ""
  ∨ SQLWriterData.InsertData (ParseJSON d).1 = VNil →
  ∃ msg, ParseError msg ∈ processors.killChan (processors.ProcessData s d w).

(** A driver that accepts every call, whatever the history. *)
Definition acceptsAll (S : Store) : Prop :=
  (∀ tr, Beginx tr = None) ∧
  (∀ tr sql, Preparex tr sql = None) ∧
  (∀ tr sql args,
     (Exec tr sql args).2 = None ∧
     (LastInsertId (Exec tr sql args).1).2 = None ∧
     (RowsAffected (Exec tr sql args).1).2 = None).

(** A driver that refuses to open a transaction. *)
Definition refusingStore : Store :=
  {| Beginx := fun _ => Some (StoreError "database is locked");
     Preparex := fun _ _ => None;
     Exec := fun _ _ _ => (okResult, None) |}.

(** A writer that lists a preserved field but no primary key. *)
Definition misconfigured : processors.SQLiteWriter :=
  {| processors.TableName := "s"; processors.OnDupKeyUpdate := true;
     processors.PrimaryKeys := []; processors.PreservedFields := ["createdAt"];
     processors.ConcurrencyLevel := 0; processors.BatchSize := 100 |}.

Definition routedEnvelope : value :=
  VObj [("table", VStr "r"); ("payload", VArr [VObj [("a", VNum 1)]])].

(** * Properties *)

(** ** Strings *)

Local Arguments String.concat : simpl never.
Local Arguments Join : simpl never.

Lemma str_app_assoc (s1 s2 s3 : string) : s1 +:+ s2 +:+ s3 = (s1 +:+ s2) +:+ s3.
Proof.
  induction s1 as [|a s1 IH]; [reflexivity|].
  change (String a (s1 +:+ s2 +:+ s3) = String a ((s1 +:+ s2) +:+ s3)).
  by rewrite IH.
Qed.

Lemma str_app_nil_r (s : string) : s +:+ "" = s.
Proof.
  induction s as [|a s IH]; [reflexivity|].
  change (String a (s +:+ "") = String a s). by rewrite IH.
Qed.

Lemma concat_nosep_cons (x : string) (xs : list string) :
  String.concat "" (x :: xs) = x +:+ String.concat "" xs.
Proof. destruct xs; [by rewrite str_app_nil_r | reflexivity]. Qed.

(** A separator written before every element but the first, as the loops of
    the compiler do, yields [strings.Join]. *)
Lemma Join_cons (sep x : string) (xs : list string) :
  Join (x :: xs) sep = x +:+ String.concat "" ((fun y => sep +:+ y) <$> xs).
Proof.
  unfold Join. revert x. induction xs as [|y ys IH]; intros x.
  - by rewrite str_app_nil_r.
  - change (x +:+ sep +:+ String.concat sep (y :: ys) = 
            x +:+ String.concat "" ((sep +:+ y) :: ((fun y => sep +:+ y) <$> ys))).
    rewrite IH, concat_nosep_cons. by rewrite (str_app_assoc sep).
Qed.

(** ** Maps used as sets *)

Lemma mapGet_markAll (xs : list string) (m : gmap string bool) (k : string) :
  mapGet (markAll xs m) k = bool_decide (k ∈ xs) || mapGet m k.
Proof.
  unfold markAll. revert m. induction xs as [|x xs IH]; intros m; simpl.
  - done.
  - rewrite IH. unfold mapGet. rewrite lookup_insert.
    destruct (decide (x = k)) as [->|Hne]; simpl.
    + rewrite (bool_decide_eq_true_2 (k ∈ k :: xs)) by left.
      by rewrite orb_true_r.
    + destruct (decide (k ∈ xs)) as [Hin|Hnin].
      * rewrite !bool_decide_eq_true_2; [done | by right | done].
      * rewrite !bool_decide_eq_false_2; [done | | done].
        intros [?|?]%elem_of_cons; congruence.
Qed.

Lemma mapGet_markAll_empty (xs : list string) (k : string) :
  mapGet (markAll xs ∅) k = bool_decide (k ∈ xs).
Proof.
  rewrite mapGet_markAll. unfold mapGet. rewrite lookup_empty. simpl.
  by rewrite orb_false_r.
Qed.

(** ** The row template and the statement text *)

Lemma whereLoop_S (k : nat) (pks : list string) (qs : string) (vc : list string) :
  util.whereLoop (S k) pks qs vc =
  (qs +:+ String.concat "" ((fun pk => "AND " +:+ pk +:+ " = ?") <$> pks),
   vc ++ pks).
Proof.
  revert k qs vc. induction pks as [|pk pks IH]; intros k qs vc; simpl.
  - by rewrite str_app_nil_r, app_nil_r.
  - rewrite IH, concat_nosep_cons, <- !str_app_assoc, <- app_assoc. done.
Qed.

Lemma whereLoop_0 (pks : list string) (qs : string) (vc : list string) :
  util.whereLoop 0 pks qs vc =
  (qs +:+ Join ((fun pk => pk +:+ " = ?") <$> pks) "AND ", vc ++ pks).
Proof.
  destruct pks as [|pk pks]; simpl.
  - by rewrite str_app_nil_r, app_nil_r.
  - rewrite whereLoop_S, Join_cons, <- list_fmap_compose, <- app_assoc.
    by rewrite <- !str_app_assoc.
Qed.

Section RowTemplate.
Variables (tableName : string) (onDupKeyUpdate : bool).
Variables (primaryKeys preservedFields : list string).

Let ph := placeholderOf tableName onDupKeyUpdate primaryKeys preservedFields.
Let bound := boundCols onDupKeyUpdate primaryKeys preservedFields.

Lemma placeholderLoop_step (i : nat) (c : string) (cols : list string)
    (qs : string) (vc : list string) :
  util.placeholderLoop tableName onDupKeyUpdate primaryKeys
    (markAll preservedFields ∅) i (c :: cols) qs vc =
  util.placeholderLoop tableName onDupKeyUpdate primaryKeys
    (markAll preservedFields ∅) (S i) cols
    ((if (0 <? i)%nat then qs +:+ "," else qs) +:+ ph c) (vc ++ bound c).
Proof.
  simpl. rewrite mapGet_markAll_empty.
  subst ph bound. unfold placeholderOf, boundCols, preserved.
  destruct (onDupKeyUpdate && bool_decide (c ∈ preservedFields)); [|done].
  rewrite whereLoop_0. unfold subquery. by rewrite <- !str_app_assoc.
Qed.

Lemma placeholderLoop_S (i : nat) (cols : list string) (qs : string)
    (vc : list string) :
  util.placeholderLoop tableName onDupKeyUpdate primaryKeys
    (markAll preservedFields ∅) (S i) cols qs vc =
  (qs +:+ String.concat "" ((fun c => "," +:+ ph c) <$> cols),
   vc ++ (cols ≫= bound)).
Proof.
  revert i qs vc. induction cols as [|c cols IH]; intros i qs vc.
  - simpl. by rewrite str_app_nil_r, app_nil_r.
  - rewrite placeholderLoop_step, IH. simpl.
    rewrite concat_nosep_cons, <- !str_app_assoc, <- app_assoc. done.
Qed.

(** The row template is one placeholder per column, comma-joined, and it
    binds the columns of each placeholder in order. *)
Lemma rowTemplate_spec (cols : list string) :
  util.rowTemplate tableName onDupKeyUpdate primaryKeys
    (markAll preservedFields ∅) cols =
  (rowGroup (ph <$> cols), cols ≫= bound).
Proof.
  unfold util.rowTemplate, rowGroup. destruct cols as [|c cols].
  - reflexivity.
  - rewrite placeholderLoop_step, placeholderLoop_S. simpl.
    rewrite Join_cons, <- list_fmap_compose, <- !str_app_assoc. done.
Qed.
End RowTemplate.

Lemma rowsLoop_S {A} (i : nat) (objects : list A) (qs insertSQL : string) :
  util.rowsLoop (S i) objects qs insertSQL =
  insertSQL +:+ String.concat "" ((fun q => "," +:+ q) <$> replicate (length objects) qs).
Proof.
  revert i insertSQL. induction objects as [|o objects IH]; intros i insertSQL; simpl.
  - by rewrite str_app_nil_r.
  - rewrite IH, concat_nosep_cons, <- !str_app_assoc. done.
Qed.

Lemma rowsLoop_0 {A} (objects : list A) (qs insertSQL : string) :
  util.rowsLoop 0 objects qs insertSQL =
  insertSQL +:+ Join (replicate (length objects) qs) ",".
Proof.
  destruct objects as [|o objects]; simpl.
  - by rewrite str_app_nil_r.
  - by rewrite rowsLoop_S, Join_cons, <- !str_app_assoc.
Qed.

(** ** The argument list *)

Lemma fmap_bind_list {A B C} (f : B → C) (g : A → list B) (l : list A) :
  f <$> (l ≫= g) = l ≫= fun x => f <$> g x.
Proof.
  induction l as [|x l IH]; [done|].
  by rewrite !bind_cons, fmap_app, IH.
Qed.

Lemma fmap_const_replicate {A B} (f : A → B) (y : B) (l : list A) :
  (∀ x, f x = y) → f <$> l = replicate (length l) y.
Proof.
  intros Hf. induction l as [|x l IH]; [done|]. rewrite fmap_cons, Hf, IH. done.
Qed.

Lemma sum_list_with_pointwise {A} (f g : A → nat) (l : list A) :
  (∀ x, f x = g x) → sum_list_with f l = sum_list_with g l.
Proof.
  intros Hfg. induction l as [|x l IH]; [done|]. simpl. by rewrite Hfg, IH.
Qed.

Lemma length_bind_list {A B} (g : A → list B) (l : list A) :
  length (l ≫= g) = sum_list_with (fun x => length (g x)) l.
Proof.
  induction l as [|x l IH]; [done|].
  rewrite bind_cons, length_app, IH. done.
Qed.

Lemma length_bind_const {A B} (g : A → list B) (l : list A) (n : nat) :
  (∀ x, length (g x) = n) → length (l ≫= g) = (length l * n)%nat.
Proof.
  intros Hn. induction l as [|x l IH]; [done|].
  rewrite bind_cons, length_app, IH, Hn. simpl. lia.
Qed.

(** What the inner loop leaves: all values of the object, or the first
    missing primary key. *)
Lemma valColsLoop_inv (pkm : gmap string bool) (obj : object)
    (vcs : list string) (vals vals' : list value) (r : option error) :
  util.valColsLoop pkm obj vcs vals = (vals', r) →
  match r with
  | None =>
      vals' = vals ++ (valueOf obj <$> vcs) ∧
      ∀ c, c ∈ vcs → mapGet pkm c = true → is_Some (obj !! c)
  | Some e =>
      ∃ c pre post,
        e = MissingKeyError c ∧ vcs = pre ++ c :: post ∧
        mapGet pkm c = true ∧ obj !! c = None ∧
        vals' = vals ++ (valueOf obj <$> pre) ∧
        ∀ c', c' ∈ pre → mapGet pkm c' = true → is_Some (obj !! c')
  end.
Proof.
  revert vals. induction vcs as [|c vcs IH]; intros vals Hrun; simpl in Hrun.
  - injection Hrun as <- <-. split; [by rewrite app_nil_r|].
    intros c Hc. by apply elem_of_nil in Hc.
  - destruct (obj !! c) as [v|] eqn:Hc; [|destruct (mapGet pkm c) eqn:Hpk].
    + apply IH in Hrun. destruct r as [e|].
      * destruct Hrun as (c0 & pre & post & -> & -> & ? & ? & -> & Hpre).
        exists c0, (c :: pre), post. repeat split; try done.
        -- simpl. unfold valueOf at 2. rewrite Hc. simpl. by rewrite <- app_assoc.
        -- intros c' [->|?]%elem_of_cons ?; [by rewrite Hc | by apply Hpre].
      * destruct Hrun as [-> Hall]. split.
        -- simpl. unfold valueOf at 2. rewrite Hc. simpl. by rewrite <- app_assoc.
        -- intros c' [->|?]%elem_of_cons ?; [by rewrite Hc | by apply Hall].
    + injection Hrun as <- <-. exists c, [], vcs. repeat split; try done.
      * by rewrite app_nil_r.
      * intros c' Hc'. by apply elem_of_nil in Hc'.
    + apply IH in Hrun. destruct r as [e|].
      * destruct Hrun as (c0 & pre & post & -> & -> & ? & ? & -> & Hpre).
        exists c0, (c :: pre), post. repeat split; try done.
        -- simpl. unfold valueOf at 2. rewrite Hc. simpl. by rewrite <- app_assoc.
        -- intros c' [->|?]%elem_of_cons ?; [congruence | by apply Hpre].
      * destruct Hrun as [-> Hall]. split.
        -- simpl. unfold valueOf at 2. rewrite Hc. simpl. by rewrite <- app_assoc.
        -- intros c' [->|?]%elem_of_cons ?; [congruence | by apply Hall].
Qed.

Lemma objectsLoop_inv (pkm : gmap string bool) (objects : list object)
    (vcs : list string) (vals vals' : list value) (r : option error) :
  util.objectsLoop pkm objects vcs vals = (vals', r) →
  match r with
  | None =>
      vals' = vals ++ (objects ≫= fun obj => valueOf obj <$> vcs) ∧
      ∀ obj c, obj ∈ objects → c ∈ vcs → mapGet pkm c = true → is_Some (obj !! c)
  | Some e =>
      ∃ c obj,
        e = MissingKeyError c ∧ obj ∈ objects ∧ c ∈ vcs ∧
        mapGet pkm c = true ∧ obj !! c = None
  end.
Proof.
  revert vals. induction objects as [|obj objects IH]; intros vals Hrun;
    simpl in Hrun.
  - injection Hrun as <- <-. split; [by rewrite app_nil_r|].
    intros obj c Hobj. by apply elem_of_nil in Hobj.
  - destruct (util.valColsLoop pkm obj vcs vals) as [vals1 [e1|]] eqn:Hin;
      apply valColsLoop_inv in Hin.
    + injection Hrun as <- <-.
      destruct Hin as (c & pre & post & -> & -> & ? & ? & _).
      exists c, obj. repeat split; try done; [by left|].
      apply elem_of_app. right. by left.
    + destruct Hin as [-> Hhere]. apply IH in Hrun. destruct r as [e|].
      * destruct Hrun as (c & obj' & -> & ? & ? & ? & ?).
        exists c, obj'. repeat split; try done. by right.
      * destruct Hrun as [-> Hall]. split.
        -- simpl. by rewrite <- app_assoc.
        -- intros obj' c [->|?]%elem_of_cons ? ?; [by apply Hhere | by eapply Hall].
Qed.

(** The loop over [preservedFields] appends every entry that is not a key of
    the batch, once per occurrence. *)
Lemma preservedLoop_snd (colMap : gmap string bool) (pfs : list string)
    (pfm : gmap string bool) (cols : list string) :
  (util.preservedLoop colMap pfs pfm cols).2 =
  cols ++ filter (fun pf => mapGet colMap pf = false) pfs.
Proof.
  unfold util.preservedLoop. revert pfm cols.
  induction pfs as [|pf pfs IH]; intros pfm cols; simpl.
  - by rewrite app_nil_r.
  - rewrite IH, filter_cons. destruct (mapGet colMap pf) eqn:Hpf; simpl.
    + done.
    + by rewrite <- app_assoc.
Qed.

(** The same loop records every entry of [preservedFields] in
    [preservedFieldMap]. *)
Lemma preservedLoop_fst (colMap : gmap string bool) (pfs : list string)
    (pfm : gmap string bool) (cols : list string) :
  (util.preservedLoop colMap pfs pfm cols).1 = markAll pfs pfm.
Proof.
  unfold util.preservedLoop, markAll. revert pfm cols.
  induction pfs as [|pf pfs IH]; intros pfm cols; simpl; [done|]. apply IH.
Qed.

(** [buildSQLiteInsertSQL], loops resolved. *)
Lemma build_unfold (objects : list object) (tableName : string)
    (onDupKeyUpdate : bool) (primaryKeys preservedFields : list string) :
  util.buildSQLiteInsertSQL objects tableName onDupKeyUpdate
    primaryKeys preservedFields =
  let cols := util.columns objects preservedFields in
  let r := util.objectsLoop (markAll primaryKeys ∅) objects
             (cols ≫= boundCols onDupKeyUpdate primaryKeys preservedFields) [] in
  ((if onDupKeyUpdate then "INSERT OR REPLACE INTO " else "INSERT INTO ")
     +:+ tableName +:+ "(" +:+ Join cols "," +:+ ") VALUES"
     +:+ Join (replicate (length objects)
                 (rowGroup (placeholderOf tableName onDupKeyUpdate primaryKeys
                              preservedFields <$> cols))) ",",
   r.1, r.2).
Proof.
  unfold util.buildSQLiteInsertSQL, util.columns. cbv zeta.
  pose proof (preservedLoop_fst (markAll (sortedColumns objects) ∅)
                preservedFields ∅ (sortedColumns objects)) as Hpfm.
  destruct (util.preservedLoop _ _ _ _) as [pfm cols]. simpl in Hpfm.
  subst pfm. simpl. rewrite rowTemplate_spec, rowsLoop_0.
  destruct (util.objectsLoop _ _ _ _) as [vals err]. simpl.
  destruct onDupKeyUpdate; by rewrite <- !str_app_assoc.
Qed.

(** A successful compilation binds, record by record and column by column,
    the values of the columns each placeholder consumes; every primary key
    it binds is present in the record. *)
Lemma build_ok_inv (objects : list object) (tableName : string)
    (onDupKeyUpdate : bool) (primaryKeys preservedFields : list string)
    (sql : string) (vals : list value) :
  util.buildSQLiteInsertSQL objects tableName onDupKeyUpdate
    primaryKeys preservedFields = (sql, vals, None) →
  let cols := util.columns objects preservedFields in
  let bound := boundCols onDupKeyUpdate primaryKeys preservedFields in
  sql = (if onDupKeyUpdate then "INSERT OR REPLACE INTO " else "INSERT INTO ")
        +:+ tableName +:+ "(" +:+ Join cols "," +:+ ") VALUES"
        +:+ Join (replicate (length objects)
                    (rowGroup (placeholderOf tableName onDupKeyUpdate
                                 primaryKeys preservedFields <$> cols))) "," ∧
  vals = (objects ≫= fun obj => cols ≫= fun c => valueOf obj <$> bound c) ∧
  ∀ obj c, obj ∈ objects → c ∈ cols ≫= bound → c ∈ primaryKeys →
           is_Some (obj !! c).
Proof.
  rewrite build_unfold. cbv zeta. intros Hb.
  destruct (util.objectsLoop _ _ _ _) as [vals' err] eqn:Hloop.
  simpl in Hb. injection Hb as <- -> ->.
  apply objectsLoop_inv in Hloop as [-> Hall]. split; [done|]. split.
  - simpl. apply list_bind_ext; [|done]. intros obj. apply fmap_bind_list.
  - intros obj c Hobj Hc Hpk. apply (Hall obj c Hobj Hc).
    rewrite mapGet_markAll_empty. by apply bool_decide_eq_true_2.
Qed.

(** A failed compilation names a primary key that is bound and that some
    record lacks. *)
Lemma build_err_inv (objects : list object) (tableName : string)
    (onDupKeyUpdate : bool) (primaryKeys preservedFields : list string)
    (sql : string) (vals : list value) (e : error) :
  util.buildSQLiteInsertSQL objects tableName onDupKeyUpdate
    primaryKeys preservedFields = (sql, vals, Some e) →
  ∃ c obj,
    e = MissingKeyError c ∧ obj ∈ objects ∧ c ∈ primaryKeys ∧ obj !! c = None ∧
    c ∈ util.columns objects preservedFields
          ≫= boundCols onDupKeyUpdate primaryKeys preservedFields.
Proof.
  rewrite build_unfold. cbv zeta. intros Hb.
  destruct (util.objectsLoop _ _ _ _) as [vals' err] eqn:Hloop.
  simpl in Hb. injection Hb as _ -> ->.
  apply objectsLoop_inv in Hloop as (c & obj & -> & ? & ? & Hpk & ?).
  exists c, obj. repeat split; try done.
  rewrite mapGet_markAll_empty in Hpk. by apply bool_decide_eq_true_1 in Hpk.
Qed.

(** Compilation fails exactly when a bound primary key is missing. *)
Lemma build_lacks (objects : list object) (tableName : string)
    (onDupKeyUpdate : bool) (primaryKeys preservedFields : list string) :
  lacksConsultedKey objects tableName onDupKeyUpdate primaryKeys preservedFields →
  ∃ c obj,
    (util.buildSQLiteInsertSQL objects tableName onDupKeyUpdate
       primaryKeys preservedFields).2 = Some (MissingKeyError c) ∧
    obj ∈ objects ∧ c ∈ primaryKeys ∧ obj !! c = None ∧
    c ∈ (util.rowTemplate tableName onDupKeyUpdate primaryKeys
           (markAll preservedFields ∅)
           (util.columns objects preservedFields)).2.
Proof.
  intros (obj & col & Hobj & Hpk & Hnone & Hcol).
  destruct (util.buildSQLiteInsertSQL objects tableName onDupKeyUpdate
              primaryKeys preservedFields) as [[sql vals] [e|]] eqn:Hb.
  - apply build_err_inv in Hb as (c & obj' & -> & ? & ? & ? & ?).
    exists c, obj'. rewrite rowTemplate_spec. done.
  - apply build_ok_inv in Hb as (_ & _ & Hall).
    rewrite rowTemplate_spec in Hcol.
    destruct (Hall obj col Hobj Hcol Hpk) as [v Hv]. congruence.
Qed.

(** ** The column list *)

Lemma sort_Strings_sorted (l : list string) : Sorted String.le (sort_Strings l).
Proof. apply (Sorted_merge_sort _). Qed.

Lemma sort_Strings_perm (l : list string) : sort_Strings l ≡ₚ l.
Proof. apply merge_sort_Permutation. Qed.

(** Sorting depends on the elements only, not on the order they come in. *)
Lemma sort_Strings_unique (l1 l2 : list string) :
  l1 ≡ₚ l2 → sort_Strings l1 = sort_Strings l2.
Proof.
  intros Hp. apply (Sorted_unique String.le); try apply sort_Strings_sorted.
  by rewrite !sort_Strings_perm.
Qed.

Lemma elem_of_sort_Strings (c : string) (l : list string) :
  c ∈ sort_Strings l ↔ c ∈ l.
Proof. by rewrite sort_Strings_perm. Qed.

Lemma elem_of_keys (c : string) (objects : list object) :
  c ∈ keys objects ↔ ∃ obj, obj ∈ objects ∧ is_Some (obj !! c).
Proof.
  unfold keys. rewrite elem_of_union_list. split.
  - intros (X & (obj & -> & Hobj)%list_elem_of_fmap & Hc).
    exists obj. split; [done|]. by apply elem_of_dom.
  - intros (obj & Hobj & Hc). exists (dom obj). split.
    + apply list_elem_of_fmap. by exists obj.
    + by apply elem_of_dom.
Qed.

Lemma keys_perm (objects objects' : list object) :
  objects ≡ₚ objects' → keys objects = keys objects'.
Proof.
  intros Hp. apply set_eq. intros c. rewrite !elem_of_keys.
  by setoid_rewrite Hp.
Qed.

Lemma elem_of_sortedColumns (c : string) (objects : list object) :
  c ∈ sortedColumns objects ↔ c ∈ keys objects.
Proof. unfold sortedColumns. by rewrite elem_of_sort_Strings, elem_of_elements. Qed.

Lemma NoDup_sortedColumns (objects : list object) : NoDup (sortedColumns objects).
Proof.
  unfold sortedColumns. rewrite sort_Strings_perm. apply NoDup_elements.
Qed.

Lemma columns_unfold (objects : list object) (pfs : list string) :
  util.columns objects pfs =
  sort_Strings (sortedColumns objects
                ++ filter (fun pf => pf ∉ keys objects) pfs).
Proof.
  unfold util.columns. cbv zeta. rewrite preservedLoop_snd. do 2 f_equal.
  apply list_filter_iff. intros pf.
  rewrite mapGet_markAll_empty, <- elem_of_sortedColumns.
  by rewrite bool_decide_eq_false.
Qed.

Lemma elem_of_columns (c : string) (objects : list object) (pfs : list string) :
  c ∈ util.columns objects pfs ↔
  (∃ obj, obj ∈ objects ∧ is_Some (obj !! c)) ∨ c ∈ pfs.
Proof.
  rewrite columns_unfold, elem_of_sort_Strings, elem_of_app,
    elem_of_sortedColumns, list_elem_of_filter, <- elem_of_keys.
  destruct (decide (c ∈ keys objects)); tauto.
Qed.

Lemma columns_sorted (objects : list object) (pfs : list string) :
  Sorted String.le (util.columns objects pfs).
Proof. rewrite columns_unfold. apply sort_Strings_sorted. Qed.

Lemma columns_NoDup (objects : list object) (pfs : list string) :
  NoDup pfs → NoDup (util.columns objects pfs).
Proof.
  intros Hnd. rewrite columns_unfold, sort_Strings_perm. apply NoDup_app.
  split; [apply NoDup_sortedColumns|]. split; [|by apply NoDup_filter].
  intros c Hc%elem_of_sortedColumns [Hn _]%list_elem_of_filter. done.
Qed.

(** With no repetition in [preservedFields], the column list is the sorted
    sequence of the distinct names among the keys of the batch and the
    preserved fields. *)
Lemma columns_spec (objects : list object) (pfs : list string) :
  NoDup pfs →
  util.columns objects pfs =
  sort_Strings (elements (keys objects ∪ list_to_set pfs)).
Proof.
  intros Hnd. apply (Sorted_unique String.le);
    [apply columns_sorted | apply sort_Strings_sorted |].
  rewrite sort_Strings_perm. apply NoDup_Permutation.
  - by apply columns_NoDup.
  - apply NoDup_elements.
  - intros c. rewrite elem_of_columns, elem_of_elements, elem_of_union,
      elem_of_list_to_set, elem_of_keys. done.
Qed.

(** The column list does not depend on the order of the records. *)
Lemma columns_perm (objects objects' : list object) (pfs : list string) :
  objects ≡ₚ objects' → util.columns objects pfs = util.columns objects' pfs.
Proof.
  intros Hp. rewrite !columns_unfold. unfold sortedColumns.
  fold (keys objects) (keys objects'). by rewrite (keys_perm _ _ Hp).
Qed.

(** ** The statement compiler: the claims *)

(** C6, at the input on which the code departs from it: with the one-record
    batch [{a:1}] and [preservedFields = ["x"; "x"]], the column list compiled
    by [buildSQLiteInsertSQL] is [a, x, x].  The name [x] is listed twice and
    the statement has three placeholders per row, where the sorted sequence
    of distinct names is [a, x]. *)
Theorem duplicate_preserved_field_listed_twice :
  util.columns batchA ["x"; "x"] = ["a"; "x"; "x"] ∧
  sort_Strings (elements (keys batchA ∪ list_to_set ["x"; "x"])) = ["a"; "x"] ∧
  util.buildSQLiteInsertSQL batchA "t" false [] ["x"; "x"] =
    ("INSERT INTO t(a,x,x) VALUES(?,?,?)", [VNum 1; VNil; VNil], None).
Proof. repeat split; vm_compute; reflexivity. Qed.

(** C7: in a compiled statement the row template holds one placeholder per
    column, in column order.  Under InsertOnly ([onDupKeyUpdate] false) every
    placeholder is a plain [?] bound to the record's value for the column, so
    the statement text holds no subquery.  Under replace semantics a column
    of [preservedFields] gets the correlated SELECT over the primary keys,
    bound to the values of the record's primary keys, one per key and all
    present in the record; every other column gets a plain [?] bound to the
    record's value for it. *)
Theorem placeholders_follow_policy (objects : list object) (tableName : string)
    (onDupKeyUpdate : bool) (primaryKeys preservedFields : list string)
    (sql : string) (vals : list value) :
  util.buildSQLiteInsertSQL objects tableName onDupKeyUpdate
    primaryKeys preservedFields = (sql, vals, None) →
  let cols := util.columns objects preservedFields in
  let ph := placeholderOf tableName onDupKeyUpdate primaryKeys preservedFields in
  let bound := boundCols onDupKeyUpdate primaryKeys preservedFields in
  util.rowTemplate tableName onDupKeyUpdate primaryKeys
    (markAll preservedFields ∅) cols
    = (rowGroup (ph <$> cols), cols ≫= bound) ∧
  sql = (if onDupKeyUpdate then "INSERT OR REPLACE INTO " else "INSERT INTO ")
        +:+ tableName +:+ "(" +:+ Join cols "," +:+ ") VALUES"
        +:+ Join (replicate (length objects) (rowGroup (ph <$> cols))) "," ∧
  vals = (objects ≫= fun obj => cols ≫= fun c => valueOf obj <$> bound c) ∧
  (onDupKeyUpdate = false →
     sql = "INSERT INTO " +:+ tableName +:+ "(" +:+ Join cols "," +:+ ") VALUES"
           +:+ Join (replicate (length objects)
                       (rowGroup (replicate (length cols) "?"))) ",") ∧
  (∀ c, onDupKeyUpdate = false → ph c = "?" ∧ bound c = [c]) ∧
  (∀ c, onDupKeyUpdate = true → c ∈ preservedFields →
        ph c = subquery tableName primaryKeys c ∧ bound c = primaryKeys ∧
        (c ∈ cols → ∀ obj pk, obj ∈ objects → pk ∈ primaryKeys →
                    is_Some (obj !! pk))) ∧
  (∀ c, onDupKeyUpdate = true → c ∉ preservedFields →
        ph c = "?" ∧ bound c = [c]).
Proof.
  intros Hb cols ph bound. pose proof (build_ok_inv _ _ _ _ _ _ _ Hb) as (Hsql & Hvals & Hpk).
  fold cols in Hsql, Hvals, Hpk. fold ph in Hsql. fold bound in Hvals, Hpk.
  split; [apply rowTemplate_spec|]. split; [done|]. split; [done|].
  assert (Hoff : ∀ c, preserved onDupKeyUpdate preservedFields c = false →
                      ph c = "?" ∧ bound c = [c]).
  { intros c Hc. subst ph bound. unfold placeholderOf, boundCols. by rewrite Hc. }
  repeat split.
  - intros ->. rewrite Hsql. do 8 f_equal.
    apply fmap_const_replicate. intros c. by apply Hoff.
  - apply Hoff. by subst.
  - apply Hoff. by subst.
  - subst ph. unfold placeholderOf, preserved. subst.
    by rewrite bool_decide_eq_true_2.
  - subst bound. unfold boundCols, preserved. subst.
    by rewrite bool_decide_eq_true_2.
  - intros Hc obj pk Hobj Hin. apply (Hpk obj pk Hobj); [|done].
    apply list_elem_of_bind. exists c. split; [|done].
    subst bound. unfold boundCols, preserved. subst.
    by rewrite bool_decide_eq_true_2.
  - apply Hoff. unfold preserved. subst. by rewrite bool_decide_eq_false_2.
  - apply Hoff. unfold preserved. subst. by rewrite bool_decide_eq_false_2.
Qed.

Lemma placeholders_follow_policy_witness :
  util.buildSQLiteInsertSQL batchIdName "t" true ["id"] ["createdAt"] =
    ("INSERT OR REPLACE INTO t(createdAt,id,name) VALUES((SELECT createdAt FROM t WHERE id = ?),?,?)",
     [VNum 1; VNum 1; VStr "x"], None) ∧
  util.rowTemplate "t" true ["id"] (markAll ["createdAt"] ∅)
    (util.columns batchIdName ["createdAt"]) =
  (rowGroup (placeholderOf "t" true ["id"] ["createdAt"]
               <$> util.columns batchIdName ["createdAt"]),
   util.columns batchIdName ["createdAt"]
     ≫= boundCols true ["id"] ["createdAt"]).
Proof.
  split; [vm_compute; reflexivity|].
  refine (proj1 (placeholders_follow_policy batchIdName "t" true ["id"]
                   ["createdAt"] _ _ _)).
  vm_compute; reflexivity.
Defined.

(** C8: when a batch compiles, the argument list is the concatenation, per
    record in batch order and per column in column order, of the arguments
    the column binds: the record's primary-key values for a preserved column
    under replace semantics, the record's value otherwise, NULL when the
    record has no value for the column, which never happens for a primary
    key.  Its length is the number of rows times the sum over the columns of
    1 for a normal column and |primaryKeys| for a preserved one. *)
Theorem argument_list_shape (objects : list object) (tableName : string)
    (onDupKeyUpdate : bool) (primaryKeys preservedFields : list string)
    (sql : string) (vals : list value) :
  util.buildSQLiteInsertSQL objects tableName onDupKeyUpdate
    primaryKeys preservedFields = (sql, vals, None) →
  let cols := util.columns objects preservedFields in
  let isPreserved := preserved onDupKeyUpdate preservedFields in
  vals = (objects ≫= fun obj => cols ≫= fun c =>
            if isPreserved c then valueOf obj <$> primaryKeys
            else [valueOf obj c]) ∧
  length vals =
    (length objects *
     sum_list_with (fun c => if isPreserved c then length primaryKeys else 1) cols)%nat ∧
  (∀ obj c, obj !! c = None → valueOf obj c = VNil) ∧
  (∀ obj c, obj ∈ objects → c ∈ cols → isPreserved c = false →
            c ∈ primaryKeys → is_Some (obj !! c)) ∧
  (∀ obj c pk, obj ∈ objects → c ∈ cols → isPreserved c = true →
               pk ∈ primaryKeys → is_Some (obj !! pk)).
Proof.
  intros Hb cols isPreserved.
  pose proof (build_ok_inv _ _ _ _ _ _ _ Hb) as (_ & Hvals & Hpk).
  fold cols in Hvals, Hpk.
  assert (Heq : ∀ obj,
    (cols ≫= fun c => valueOf obj <$> boundCols onDupKeyUpdate primaryKeys
                                       preservedFields c) =
    (cols ≫= fun c => if isPreserved c then valueOf obj <$> primaryKeys
                      else [valueOf obj c])).
  { intros obj. apply list_bind_ext; [|done]. intros c.
    unfold boundCols. fold (isPreserved c). by destruct (isPreserved c). }
  assert (Hvals' : vals = (objects ≫= fun obj => cols ≫= fun c =>
            if isPreserved c then valueOf obj <$> primaryKeys
            else [valueOf obj c])).
  { rewrite Hvals. apply list_bind_ext; [|done]. apply Heq. }
  split; [done|]. split; [|repeat split].
  - rewrite Hvals'. apply length_bind_const. intros obj.
    rewrite length_bind_list. apply sum_list_with_pointwise. intros c.
    destruct (isPreserved c); [apply length_fmap | done].
  - intros obj c Hc. unfold valueOf. by rewrite Hc.
  - intros obj c Hobj Hc Hnp Hin. apply (Hpk obj c Hobj); [|done].
    apply list_elem_of_bind. exists c. split; [|done].
    unfold boundCols. fold (isPreserved c). rewrite Hnp. by left.
  - intros obj c pk Hobj Hc Hp Hin. apply (Hpk obj pk Hobj); [|done].
    apply list_elem_of_bind. exists c. split; [|done].
    unfold boundCols. fold (isPreserved c). by rewrite Hp.
Qed.

Lemma argument_list_shape_witness :
  util.buildSQLiteInsertSQL batchIdName "t" true ["id"] ["createdAt"] =
    ("INSERT OR REPLACE INTO t(createdAt,id,name) VALUES((SELECT createdAt FROM t WHERE id = ?),?,?)",
     [VNum 1; VNum 1; VStr "x"], None) ∧
  length [VNum 1; VNum 1; VStr "x"] =
    (length batchIdName *
     sum_list_with (fun c => if preserved true ["createdAt"] c
                             then length ["id"] else 1)
       (util.columns batchIdName ["createdAt"]))%nat.
Proof.
  split; [vm_compute; reflexivity|].
  refine (proj1 (proj2 (argument_list_shape batchIdName "t" true ["id"]
                          ["createdAt"] _ _ _))).
  vm_compute; reflexivity.
Defined.

(** C9, as the claim words it, fails: the text the code produces has no
    space between [VALUES] and the first row group. *)
Lemma insert_only_text_has_no_space :
  util.buildSQLiteInsertSQL batchAB "t" false [] [] ≠
  ("INSERT INTO t(a,b) VALUES (?,?),(?,?)", [VNum 1; VNum 2; VNum 3; VNil], None).
Proof. vm_compute. discriminate. Qed.

(** C9, amended: for the InsertOnly policy, table [t] and the batch
    [[{a:1,b:2},{a:3}]], [buildSQLiteInsertSQL] produces exactly the text
    [INSERT INTO t(a,b) VALUES(?,?),(?,?)] and the arguments [1, 2, 3, null],
    without error. *)
Theorem insert_only_example :
  util.buildSQLiteInsertSQL batchAB "t" false [] [] =
  ("INSERT INTO t(a,b) VALUES(?,?),(?,?)", [VNum 1; VNum 2; VNum 3; VNil], None).
Proof. vm_compute. reflexivity. Qed.

(** ** The batch executor *)

Lemma slice_chunk {A} (l : list A) (i bs : Z) :
  0 ≤ i → bs > 0 → i < len l →
  slice l i (if decide (i + bs > len l) then len l else i + bs)
  = take (Z.to_nat bs) (drop (Z.to_nat i) l).
Proof.
  unfold slice, len. intros Hi Hbs Hlt. destruct (decide _) as [Hgt|Hle].
  - rewrite !take_ge; [done | |]; rewrite length_drop; lia.
  - f_equal. lia.
Qed.

(** In the body of the chunk loop the sum [i + batchSize] does not leave the
    64-bit integers: slices are far shorter than 2^62. *)
Lemma chunk_index_no_wrap {A} (objects : list A) (i batchSize : Z) :
  0 ≤ i < len objects → 0 < batchSize < 2 ^ 63 →
  i = 0 ∨ batchSize ≤ i → len objects < 2 ^ 62 →
  i + batchSize < 2 ^ 63.
Proof.
  change (2 ^ 63) with 9223372036854775808.
  change (2 ^ 62) with 4611686018427387904. lia.
Qed.

Lemma chunksFrom_fuel {A} (fuel1 fuel2 n : nat) (l : list A) :
  (0 < n)%nat → (length l ≤ fuel1)%nat → (length l ≤ fuel2)%nat →
  chunksFrom fuel1 n l = chunksFrom fuel2 n l.
Proof.
  intros Hn. revert fuel2 l.
  induction fuel1 as [|fuel1 IH]; intros fuel2 l Hlen1 Hlen2.
  - destruct l; [by destruct fuel2 | simpl in Hlen1; lia].
  - destruct l as [|x l]; [by destruct fuel2|].
    destruct fuel2 as [|fuel2]; [simpl in Hlen2; lia|].
    change (take n (x :: l) :: chunksFrom fuel1 n (drop n (x :: l)) =
            take n (x :: l) :: chunksFrom fuel2 n (drop n (x :: l))).
    f_equal. simpl in Hlen1, Hlen2.
    apply IH; rewrite length_drop; simpl; lia.
Qed.

(** A non-empty batch is its first [n] records followed by the chunks of
    the rest. *)
Lemma chunks_cons {A} (n : nat) (l : list A) :
  (0 < n)%nat → l ≠ [] → chunks n l = take n l :: chunks n (drop n l).
Proof.
  intros Hn Hl. unfold chunks. destruct l as [|x l]; [done|].
  change (take n (x :: l) :: chunksFrom (length l) n (drop n (x :: l)) =
          take n (x :: l) :: chunksFrom (length (drop n (x :: l))) n (drop n (x :: l))).
  f_equal. apply chunksFrom_fuel; [done | | done].
  rewrite length_drop. simpl. lia.
Qed.

Lemma chunks_nil {A} (n : nat) : chunks n (@nil A) = [].
Proof. done. Qed.

Section ExecutorFacts.
Context `{Store}.

(** The loop of lines 43-54 runs the chunks of the records from index [i]
    on, in order, and rolls back at the first one that fails. *)
Lemma chunkLoop_runChunks (batchSize : Z) (Hpos : batchSize > 0)
    (objects : list object) (tableName : string) (onDupKeyUpdate : bool)
    (primaryKeys preservedFields : list string) (i : Z) (tr : list event) :
  0 ≤ i →
  exec.chunkLoop batchSize Hpos objects tableName onDupKeyUpdate
    primaryKeys preservedFields i tr =
  match runChunks tr (chunks (Z.to_nat batchSize) (drop (Z.to_nat i) objects))
          tableName onDupKeyUpdate primaryKeys preservedFields with
  | (Some e, tr') => (Some e, tr' ++ [EvRollback])
  | (None, tr') => (None, tr')
  end.
Proof.
  intros Hi.
  remember (length (drop (Z.to_nat i) objects)) as n eqn:Hn.
  revert i tr Hi Hn. induction n as [n IH] using lt_wf_ind.
  intros i tr Hi Hn. simp chunkLoop.
  destruct (decide (i < len objects)) as [Hlt|Hge]; simpl.
  - rewrite slice_chunk by done.
    assert (Hne : drop (Z.to_nat i) objects ≠ []).
    { intros Hnil. apply (f_equal length) in Hnil.
      rewrite length_drop in Hnil. unfold len in Hlt. simpl in Hnil. lia. }
    rewrite (chunks_cons _ (drop (Z.to_nat i) objects)) by (done || lia).
    simpl.
    destruct (exec.sqliteInsertObjects tr _ tableName onDupKeyUpdate
                primaryKeys preservedFields) as [[e|] tr1]; [done|].
    rewrite drop_drop.
    replace (Z.to_nat i + Z.to_nat batchSize)%nat
      with (Z.to_nat (i + batchSize)) by lia.
    apply (IH (length (drop (Z.to_nat (i + batchSize)) objects)));
      [|lia|done].
    subst n. rewrite !length_drop. unfold len in Hlt. lia.
  - rewrite drop_ge by (unfold len in Hge; lia). done.
Qed.

(** What one chunk adds to the history: nothing that opens or closes a
    transaction; on success the prepare, execute and close of its
    statement; on a compile error nothing at all. *)
Lemma sqliteInsertObjects_inv (tr : list event) (c : list object)
    (tableName : string) (onDupKeyUpdate : bool)
    (primaryKeys preservedFields : list string)
    (r : option error) (tr' : list event) :
  exec.sqliteInsertObjects tr c tableName onDupKeyUpdate
    primaryKeys preservedFields = (r, tr') →
  ∃ evs,
    tr' = tr ++ evs ∧ Forall (fun ev => isTxEvent ev = false) evs ∧
    (r = None →
       (util.buildSQLiteInsertSQL c tableName onDupKeyUpdate
          primaryKeys preservedFields).2 = None ∧
       evs = chunkEvents (stmtOf c tableName onDupKeyUpdate
                            primaryKeys preservedFields)) ∧
    (∀ e, (util.buildSQLiteInsertSQL c tableName onDupKeyUpdate
             primaryKeys preservedFields).2 = Some e →
          r = Some e ∧ evs = []).
Proof.
  unfold exec.sqliteInsertObjects, stmtOf, chunkEvents.
  destruct (util.buildSQLiteInsertSQL _ _ _ _ _) as [[sql vals] [e|]]; simpl.
  { intros [= <- <-]. exists []. rewrite app_nil_r.
    repeat split; done. }
  destruct (Preparex tr sql) as [e|].
  { intros [= <- <-]. eexists. split; [done|].
    split; [by repeat constructor|]. by split. }
  destruct (Exec _ sql vals) as [res [e|]].
  { intros [= <- <-]. eexists. split; [by rewrite <- app_assoc|].
    split; [by repeat constructor|]. by split. }
  destruct (LastInsertId res).2 as [e|];
    [|destruct (RowsAffected res).2 as [e|]];
    intros [= <- <-]; eexists;
    (split; [by rewrite <- !app_assoc|]);
    (split; [by repeat constructor|]); by split.
Qed.

Lemma sqliteInsertObjects_compile_error (tr : list event) (c : list object)
    (tableName : string) (onDupKeyUpdate : bool)
    (primaryKeys preservedFields : list string) (e : error) :
  (util.buildSQLiteInsertSQL c tableName onDupKeyUpdate
     primaryKeys preservedFields).2 = Some e →
  exec.sqliteInsertObjects tr c tableName onDupKeyUpdate
    primaryKeys preservedFields = (Some e, tr).
Proof.
  intros He.
  destruct (exec.sqliteInsertObjects tr c tableName onDupKeyUpdate
              primaryKeys preservedFields) as [r tr'] eqn:Hrun.
  apply sqliteInsertObjects_inv in Hrun as (evs & -> & _ & _ & Herr).
  destruct (Herr e He) as [-> ->]. by rewrite app_nil_r.
Qed.

(** Chunks run in sequence add no transaction event; when all succeed
    they add, chunk after chunk, the events of their statements. *)
Lemma runChunks_inv (cs : list (list object)) (tableName : string)
    (onDupKeyUpdate : bool) (primaryKeys preservedFields : list string)
    (tr : list event) (r : option error) (tr' : list event) :
  runChunks tr cs tableName onDupKeyUpdate primaryKeys preservedFields
    = (r, tr') →
  ∃ evs,
    tr' = tr ++ evs ∧ Forall (fun ev => isTxEvent ev = false) evs ∧
    (r = None →
       evs = ((fun c => stmtOf c tableName onDupKeyUpdate primaryKeys
                          preservedFields) <$> cs) ≫= chunkEvents).
Proof.
  revert tr. induction cs as [|c cs IH]; intros tr; simpl.
  - intros [= <- <-]. exists []. by rewrite app_nil_r.
  - destruct (exec.sqliteInsertObjects tr c tableName onDupKeyUpdate
                primaryKeys preservedFields) as [[e|] tr1] eqn:Hc;
      apply sqliteInsertObjects_inv in Hc as (evs1 & -> & Hno1 & Hok1 & _).
    + intros [= <- <-]. exists evs1. by repeat split.
    + intros (evs2 & -> & Hno2 & Hok2)%IH. exists (evs1 ++ evs2).
      split; [by rewrite app_assoc|]. split; [by apply Forall_app|].
      intros ->. destruct (Hok1 eq_refl) as [_ ->].
      by rewrite (Hok2 eq_refl) at 1.
Qed.
End ExecutorFacts.

(** ** What a history leaves in the store *)

Lemma txStep_no_tx (evs : list event) (p d : list (string * list value)) :
  Forall (fun ev => isTxEvent ev = false) evs →
  ∃ p', foldl txStep (Some p, d) evs = (Some p', d).
Proof.
  intros Hno. revert p. induction Hno as [|ev evs Hev _ IH]; intros p.
  - by exists p.
  - simpl. destruct ev as [| | sql args [|] | | |]; try done;
      unfold txStep at 2; simpl; apply IH.
Qed.

Lemma txStep_chunk (s : string * list value) (p d : list (string * list value)) :
  foldl txStep (Some p, d) (chunkEvents s) = (Some (p ++ [s]), d).
Proof. by destruct s. Qed.

Lemma txStep_chunks (stmts p d : list (string * list value)) :
  foldl txStep (Some p, d) (stmts ≫= chunkEvents) = (Some (p ++ stmts), d).
Proof.
  revert p. induction stmts as [|s stmts IH]; intros p.
  - by rewrite app_nil_r.
  - by rewrite bind_cons, foldl_app, txStep_chunk, IH, <- app_assoc.
Qed.

Lemma written_tx (evs : list event) (e : event) :
  written (EvBegin :: evs ++ [e]) = (txStep (foldl txStep (Some [], []) evs) e).2.
Proof.
  unfold written.
  change (EvBegin :: evs ++ [e]) with ([EvBegin] ++ evs ++ [e]).
  by rewrite !foldl_app.
Qed.

(** A transaction that ends in a rollback leaves nothing. *)
Lemma written_rolled_back (evs : list event) :
  Forall (fun ev => isTxEvent ev = false) evs →
  written (EvBegin :: evs ++ [EvRollback]) = [].
Proof.
  intros Hno. rewrite written_tx.
  by destruct (txStep_no_tx evs [] [] Hno) as [p' ->].
Qed.

(** A transaction of accepted statements that ends in a commit leaves them
    all, in order. *)
Lemma written_committed (stmts : list (string * list value)) :
  written (EvBegin :: (stmts ≫= chunkEvents) ++ [EvCommit]) = stmts.
Proof. by rewrite written_tx, txStep_chunks. Qed.

Lemma executed_chunks (stmts : list (string * list value)) :
  executed (stmts ≫= chunkEvents) = stmts.
Proof.
  unfold executed. induction stmts as [|s stmts IH]; [done|].
  rewrite bind_cons, omap_app, IH. by destruct s.
Qed.

Lemma executed_app (tr1 tr2 : list event) :
  executed (tr1 ++ tr2) = executed tr1 ++ executed tr2.
Proof. apply omap_app. Qed.

(** ** The batch executor: the calls of [SQLiteInsertData] *)

Lemma config_rejected (primaryKeys preservedFields : list string) :
  bool_decide (len preservedFields > 0) && bool_decide (len primaryKeys = 0) = true
  ↔ preservedFields ≠ [] ∧ primaryKeys = [].
Proof.
  rewrite andb_true_iff, !bool_decide_eq_true. unfold len.
  destruct preservedFields, primaryKeys; simpl; split; intros [? ?];
    split; (done || lia).
Qed.

Lemma config_accepted (primaryKeys preservedFields : list string) :
  preservedFields = [] ∨ primaryKeys ≠ [] →
  bool_decide (len preservedFields > 0) && bool_decide (len primaryKeys = 0) = false.
Proof.
  intros Hok. apply not_true_is_false. rewrite config_rejected. tauto.
Qed.

Section Calls.
Context `{Store} {JSON : Type} `{DataPkg JSON}.
Variables (tr : list event) (d : JSON) (tableName : string).
Variables (onDupKeyUpdate : bool) (primaryKeys preservedFields : list string).
Variable objects : list object.
Hypothesis Hconfig : preservedFields = [] ∨ primaryKeys ≠ [].
Hypothesis Hparse : ObjectsFromJSON d = (objects, None).
Hypothesis Hbegin : Beginx tr = None.

(** With a positive chunk size: one transaction, the chunks in order, a
    rollback at the first failure and a commit after the last chunk. *)
Lemma SQLiteInsertData_batched (batchSize : Z) :
  batchSize > 0 →
  exec.SQLiteInsertData tr d tableName onDupKeyUpdate primaryKeys
    preservedFields batchSize =
  match runChunks (tr ++ [EvBegin]) (chunks (Z.to_nat batchSize) objects)
          tableName onDupKeyUpdate primaryKeys preservedFields with
  | (Some e, tr') => (Return (Some e), tr' ++ [EvRollback])
  | (None, tr') => (Return None, tr' ++ [EvCommit])
  end.
Proof.
  intros Hpos. unfold exec.SQLiteInsertData.
  rewrite config_accepted, Hparse, Hbegin by done.
  destruct (decide (batchSize > 0)) as [Hpos'|]; [|done].
  rewrite chunkLoop_runChunks by done. simpl.
  by destruct (runChunks _ _ _ _ _ _) as [[e|] tr'].
Qed.

(** With chunk size 0 (or negative): the commit is issued first, the one
    statement of the whole batch after it, and nothing is rolled back. *)
Lemma SQLiteInsertData_unbatched (batchSize : Z) :
  batchSize ≤ 0 →
  exec.SQLiteInsertData tr d tableName onDupKeyUpdate primaryKeys
    preservedFields batchSize =
  (Return (exec.sqliteInsertObjects (tr ++ [EvBegin; EvCommit]) objects
             tableName onDupKeyUpdate primaryKeys preservedFields).1,
   (exec.sqliteInsertObjects (tr ++ [EvBegin; EvCommit]) objects
      tableName onDupKeyUpdate primaryKeys preservedFields).2).
Proof.
  intros Hneg. unfold exec.SQLiteInsertData.
  rewrite config_accepted, Hparse, Hbegin by done.
  destruct (decide (batchSize > 0)) as [Hpos'|]; [lia|].
  rewrite <- app_assoc. simpl.
  by destruct (exec.sqliteInsertObjects _ _ _ _ _ _).
Qed.
End Calls.

Lemma runChunks_app `{Store} (pre cs : list (list object)) (tableName : string)
    (onDupKeyUpdate : bool) (primaryKeys preservedFields : list string)
    (tr : list event) :
  runChunks tr (pre ++ cs) tableName onDupKeyUpdate primaryKeys preservedFields =
  match runChunks tr pre tableName onDupKeyUpdate primaryKeys preservedFields with
  | (Some e, tr') => (Some e, tr')
  | (None, tr') =>
      runChunks tr' cs tableName onDupKeyUpdate primaryKeys preservedFields
  end.
Proof.
  revert tr. induction pre as [|c pre IH]; intros tr; simpl; [done|].
  destruct (exec.sqliteInsertObjects tr c tableName onDupKeyUpdate
              primaryKeys preservedFields) as [[e|] tr1]; [done|]. apply IH.
Qed.

(** ** The batch executor: the claims *)

(** C10: with [preservedFields] non-empty and [primaryKeys] empty the
    executor returns the configuration error and leaves the history of the
    connection as it found it: no transaction is begun and no statement is
    prepared or executed.  The result is the same whatever the normalizer
    and the driver would answer, so neither is consulted and no record is
    processed. *)
Theorem config_error_before_store `{Store} {JSON : Type} `{DataPkg JSON}
    (tr : list event) (d : JSON) (tableName : string) (onDupKeyUpdate : bool)
    (primaryKeys preservedFields : list string) (batchSize : Z) :
  preservedFields ≠ [] → primaryKeys = [] →
  exec.SQLiteInsertData tr d tableName onDupKeyUpdate primaryKeys
    preservedFields batchSize = (Return (Some ConfigError), tr).
Proof.
  intros Hpf Hpk. unfold exec.SQLiteInsertData.
  by rewrite (proj2 (config_rejected primaryKeys preservedFields)).
Qed.

Lemma config_error_before_store_witness :
  (["createdAt"] ≠ @nil string ∧ @nil string = []) ∧
  @exec.SQLiteInsertData okStore value decoded [] five "t" true []
    ["createdAt"] 100 = (Return (Some ConfigError), []).
Proof.
  split; [split; [discriminate | reflexivity]|].
  apply (@config_error_before_store okStore value decoded);
    [discriminate | reflexivity].
Defined.

(** C1, at the input on which the code departs from it: with chunk size 0
    and the one-record batch [[{a:1}]], on a driver that accepts every call,
    the history is begin, commit, and only then the prepare and the execute
    of the statement: the commit is issued before the write, and the row is
    not in what the transaction leaves.  With chunk size 1 the same batch is
    executed first and committed after. *)
Theorem unbatched_commit_precedes_statement :
  @exec.SQLiteInsertData okStore value decoded [] one "t" false [] [] 0 =
    (Return None,
     [EvBegin; EvCommit;
      EvPrepare "INSERT INTO t(a) VALUES(?)" true;
      EvExec "INSERT INTO t(a) VALUES(?)" [VNum 1] true;
      EvClose]) ∧
  written (@exec.SQLiteInsertData okStore value decoded [] one "t" false [] [] 0).2
    = [] ∧
  @exec.SQLiteInsertData okStore value decoded [] one "t" false [] [] 1 =
    (Return None,
     [EvBegin;
      EvPrepare "INSERT INTO t(a) VALUES(?)" true;
      EvExec "INSERT INTO t(a) VALUES(?)" [VNum 1] true;
      EvClose; EvCommit]) ∧
  written (@exec.SQLiteInsertData okStore value decoded [] one "t" false [] [] 1).2
    = [("INSERT INTO t(a) VALUES(?)", [VNum 1])].
Proof. repeat split; vm_compute; reflexivity. Qed.

(** C5: a batch of five records with chunk size 2 is compiled and executed
    as three chunks, records 1-2, 3-4 and 5, in that order, after one begin.
    When the three chunks succeed, the events of the call are the begin, the
    three statements and one commit, and the three statements are what the
    transaction leaves.  When a chunk fails, the call returns its error, the
    history stops at that chunk and ends with the rollback, so that no later
    chunk is attempted, nothing is committed and nothing is left of the
    earlier chunks. *)
Theorem five_rows_in_chunks_of_two `{Store} {JSON : Type} `{DataPkg JSON}
    (tr : list event) (d : JSON) (tableName : string) (onDupKeyUpdate : bool)
    (primaryKeys preservedFields : list string) (o1 o2 o3 o4 o5 : object) :
  preservedFields = [] ∨ primaryKeys ≠ [] →
  ObjectsFromJSON d = ([o1; o2; o3; o4; o5], None) →
  Beginx tr = None →
  let run := fun c tr => exec.sqliteInsertObjects tr c tableName onDupKeyUpdate
                           primaryKeys preservedFields in
  let stmt := fun c => stmtOf c tableName onDupKeyUpdate
                         primaryKeys preservedFields in
  let s1 := run [o1; o2] (tr ++ [EvBegin]) in
  let s2 := run [o3; o4] s1.2 in
  let s3 := run [o5] s2.2 in
  let res := exec.SQLiteInsertData tr d tableName onDupKeyUpdate
               primaryKeys preservedFields 2 in
  res = match s1.1, s2.1, s3.1 with
        | Some e, _, _ => (Return (Some e), s1.2 ++ [EvRollback])
        | None, Some e, _ => (Return (Some e), s2.2 ++ [EvRollback])
        | None, None, Some e => (Return (Some e), s3.2 ++ [EvRollback])
        | None, None, None => (Return None, s3.2 ++ [EvCommit])
        end ∧
  ∃ evs,
    res.2 = tr ++ evs ∧
    (res.1 = Return None →
       evs = [EvBegin] ++ chunkEvents (stmt [o1; o2])
             ++ chunkEvents (stmt [o3; o4]) ++ chunkEvents (stmt [o5])
             ++ [EvCommit] ∧
       executed evs = [stmt [o1; o2]; stmt [o3; o4]; stmt [o5]] ∧
       written evs = [stmt [o1; o2]; stmt [o3; o4]; stmt [o5]]) ∧
    (res.1 ≠ Return None →
       ∃ e mid,
         res.1 = Return (Some e) ∧
         evs = EvBegin :: mid ++ [EvRollback] ∧
         Forall (fun ev => isTxEvent ev = false) mid ∧
         written evs = []).
Proof.
  intros Hconfig Hparse Hbegin run stmt s1 s2 s3 res.
  assert (Hres : res =
    match runChunks (tr ++ [EvBegin]) [[o1; o2]; [o3; o4]; [o5]]
            tableName onDupKeyUpdate primaryKeys preservedFields with
    | (Some e, tr') => (Return (Some e), tr' ++ [EvRollback])
    | (None, tr') => (Return None, tr' ++ [EvCommit])
    end).
  { subst res.
    by rewrite (SQLiteInsertData_batched tr d tableName onDupKeyUpdate
                  primaryKeys preservedFields _ Hconfig Hparse Hbegin 2). }
  destruct (runChunks (tr ++ [EvBegin]) [[o1; o2]; [o3; o4]; [o5]]
              tableName onDupKeyUpdate primaryKeys preservedFields)
    as [r tr'] eqn:Hrun.
  pose proof (runChunks_inv _ _ _ _ _ _ _ _ Hrun) as (evs & Htr' & Hno & Hok).
  split.
  - rewrite Hres. simpl in Hrun. fold (run [o1; o2] (tr ++ [EvBegin])) in Hrun.
    fold s1 in Hrun. destruct s1 as [[e1|] t1]; simpl in *.
    { by injection Hrun as <- <-. }
    fold (run [o3; o4] t1) in Hrun. fold s2 in Hrun.
    destruct s2 as [[e2|] t2]; simpl in *.
    { by injection Hrun as <- <-. }
    fold (run [o5] t2) in Hrun. fold s3 in Hrun.
    destruct s3 as [[e3|] t3]; simpl in *; by injection Hrun as <- <-.
  - rewrite Hres. destruct r as [e|]; simpl.
    + exists ([EvBegin] ++ evs ++ [EvRollback]). split.
      { rewrite Htr'. by rewrite <- !app_assoc. }
      split; [done|]. intros _. exists e, evs. repeat split; try done.
      by apply written_rolled_back.
    + exists ([EvBegin] ++ evs ++ [EvCommit]). split.
      { rewrite Htr'. by rewrite <- !app_assoc. }
      split; [|done]. intros _. rewrite (Hok eq_refl).
      change ((fun c => stmtOf c tableName onDupKeyUpdate primaryKeys
                          preservedFields) <$> [[o1; o2]; [o3; o4]; [o5]])
        with [stmt [o1; o2]; stmt [o3; o4]; stmt [o5]].
      split; [|split].
      * by rewrite !bind_cons, <- !app_assoc.
      * change (executed ([EvBegin] ++ ?l)) with (executed l).
        by rewrite executed_app, executed_chunks, app_nil_r.
      * apply written_committed.
Qed.

Lemma five_rows_in_chunks_of_two_witness :
  written (@exec.SQLiteInsertData secondExecFails value decoded [] five "t"
             false [] [] 2).2 = [] ∧
  written (@exec.SQLiteInsertData okStore value decoded [] five "t"
             false [] [] 2).2 =
    [("INSERT INTO t(a) VALUES(?),(?)", [VNum 1; VNum 2]);
     ("INSERT INTO t(a) VALUES(?),(?)", [VNum 3; VNum 4]);
     ("INSERT INTO t(a) VALUES(?)", [VNum 5])].
Proof.
  split.
  - destruct (@five_rows_in_chunks_of_two secondExecFails value decoded
                [] five "t" false [] []
                (record [("a", VNum 1)]) (record [("a", VNum 2)])
                (record [("a", VNum 3)]) (record [("a", VNum 4)])
                (record [("a", VNum 5)])
                (or_introl eq_refl) eq_refl eq_refl) as [_ (evs & Hevs & _ & Hfail)].
    simpl in Hevs. rewrite Hevs.
    destruct Hfail as (e & mid & _ & _ & _ & Hw); [|exact Hw].
    vm_compute. discriminate.
  - vm_compute. reflexivity.
Defined.

(** C4, as the claim words it, fails: with chunk size 2, primary key [id]
    and the batch [[{id:1},{id:2},{id:3},{x:1}]], the last record lacks the
    primary key, which the compiler binds; yet the statement of the first
    chunk has been executed against the store before the second chunk fails
    to compile. *)
Lemma missing_key_after_executed_chunk :
  ¬ @missingKeyAbortsAll okStore value decoded idRows "t" false ["id"] [] 2.
Proof.
  unfold missingKeyAbortsAll. intros Hclaim.
  assert (Hlacks : lacksConsultedKey (ObjectsFromJSON (DataPkg := decoded) idRows).1
                     "t" false ["id"] []).
  { exists (record [("x", VNum 1)]), "id". repeat split.
    - by apply (list_elem_of_lookup_2 _ 3%nat).
    - by left.
    - by apply (list_elem_of_lookup_2 _ 0%nat). }
  destruct (Hclaim Hlacks) as (_ & Hexec & _).
  vm_compute in Hexec. discriminate.
Qed.

(** C4, amended: with a positive chunk size, when the chunks before it have
    executed and some record of a chunk lacks a value for a primary-key
    column that the compiler binds for that chunk, the call fails with
    [MissingKeyError] naming a primary key that a record of the chunk lacks;
    the history of the call is the begin, the statements of the earlier
    chunks and the rollback: nothing of that chunk or of a later one is
    prepared or executed, the transaction is rolled back and not committed,
    and nothing is written. *)
Theorem missing_key_rolls_back `{Store} {JSON : Type} `{DataPkg JSON}
    (tr : list event) (d : JSON) (tableName : string) (onDupKeyUpdate : bool)
    (primaryKeys preservedFields : list string) (batchSize : Z)
    (objects : list object) (pre post : list (list object)) (c : list object)
    (tr1 : list event) :
  preservedFields = [] ∨ primaryKeys ≠ [] →
  ObjectsFromJSON d = (objects, None) →
  Beginx tr = None →
  batchSize > 0 →
  chunks (Z.to_nat batchSize) objects = pre ++ c :: post →
  runChunks (tr ++ [EvBegin]) pre tableName onDupKeyUpdate
    primaryKeys preservedFields = (None, tr1) →
  lacksConsultedKey c tableName onDupKeyUpdate primaryKeys preservedFields →
  let stmts := (fun c => stmtOf c tableName onDupKeyUpdate primaryKeys
                           preservedFields) <$> pre in
  let evs := EvBegin :: (stmts ≫= chunkEvents) ++ [EvRollback] in
  ∃ col obj,
    exec.SQLiteInsertData tr d tableName onDupKeyUpdate primaryKeys
      preservedFields batchSize
      = (Return (Some (MissingKeyError col)), tr ++ evs) ∧
    obj ∈ c ∧ col ∈ primaryKeys ∧ obj !! col = None ∧
    executed evs = stmts ∧
    written evs = [].
Proof.
  intros Hconfig Hparse Hbegin Hpos Hchunks Hpre Hlacks stmts evs.
  destruct (build_lacks _ _ _ _ _ Hlacks) as (col & obj & Herr & Hobj & Hpk & Hnone & _).
  exists col, obj.
  pose proof (runChunks_inv _ _ _ _ _ _ _ _ Hpre) as (mid & -> & Hno & Hok).
  specialize (Hok eq_refl). fold stmts in Hok. subst mid.
  repeat split; try done.
  - rewrite (SQLiteInsertData_batched tr d tableName onDupKeyUpdate
               primaryKeys preservedFields objects Hconfig Hparse Hbegin) by done.
    rewrite Hchunks, runChunks_app, Hpre. simpl.
    rewrite (sqliteInsertObjects_compile_error _ _ _ _ _ _ _ Herr).
    subst evs. by rewrite <- !app_assoc.
  - subst evs. change (executed (EvBegin :: ?l)) with (executed l).
    by rewrite executed_app, executed_chunks, app_nil_r.
  - by apply written_rolled_back.
Qed.

Lemma missing_key_rolls_back_witness :
  ∃ col,
    @exec.SQLiteInsertData okStore value decoded [] idRows "t" false ["id"] [] 2
    = (Return (Some (MissingKeyError col)),
       [EvBegin;
        EvPrepare "INSERT INTO t(id) VALUES(?),(?)" true;
        EvExec "INSERT INTO t(id) VALUES(?),(?)" [VNum 1; VNum 2] true;
        EvClose; EvRollback]).
Proof.
  destruct (@missing_key_rolls_back okStore value decoded [] idRows "t" false
              ["id"] [] 2
              (objectsOf idRows).1
              [[record [("id", VNum 1)]; record [("id", VNum 2)]]] []
              [record [("id", VNum 3)]; record [("x", VNum 1)]]
              [EvBegin;
               EvPrepare "INSERT INTO t(id) VALUES(?),(?)" true;
               EvExec "INSERT INTO t(id) VALUES(?),(?)" [VNum 1; VNum 2] true;
               EvClose])
    as (col & obj & Hrun & _).
  - right. discriminate.
  - reflexivity.
  - reflexivity.
  - lia.
  - vm_compute. reflexivity.
  - vm_compute. reflexivity.
  - exists (record [("x", VNum 1)]), "id". repeat split.
    + by apply (list_elem_of_lookup_2 _ 1%nat).
    + by left.
    + by apply (list_elem_of_lookup_2 _ 0%nat).
  - exists col. exact Hrun.
Defined.

(** ** The pipeline stages: the claims *)

Section StageFacts.
Context `{Store} {JSON : Type} `{DataPkg JSON} `{SQLReader JSON}.
Implicit Types (s : processors.SQLiteWriter) (d : JSON) (w : processors.world JSON).

Lemma KillPipelineIfErr_outputChan (err : option error) w :
  processors.outputChan (processors.KillPipelineIfErr err w)
  = processors.outputChan w.
Proof. by destruct err. Qed.

Lemma insertData_outputChan s d (tableName : string) w :
  processors.outputChan (processors.insertData s d tableName w)
  = processors.outputChan w.
Proof.
  unfold processors.insertData.
  destruct (exec.SQLiteInsertData _ _ _ _ _ _ _) as [[err|e] tr];
    by rewrite KillPipelineIfErr_outputChan.
Qed.

(** An insert leaves the kill channel as it was exactly when the executor
    returned without error. *)
Lemma insertData_killChan s d (tableName : string) w :
  processors.killChan (processors.insertData s d tableName w)
  = processors.killChan w ↔
  ∃ tr, exec.SQLiteInsertData (processors.db w) d tableName
          (processors.OnDupKeyUpdate s) (processors.PrimaryKeys s)
          (processors.PreservedFields s) (processors.BatchSize s)
        = (Return None, tr).
Proof.
  unfold processors.insertData.
  destruct (exec.SQLiteInsertData _ _ _ _ _ _ _) as [[[e|]|e] tr]; simpl.
  - split; [|by intros [? [=]]].
    intros Heq%(f_equal length). rewrite length_app in Heq. simpl in Heq. lia.
  - split; [by exists tr | done].
  - split; [|by intros [? [=]]].
    intros Heq%(f_equal length). rewrite length_app in Heq. simpl in Heq. lia.
Qed.

(** The writer stage never sends on the output channel. *)
Lemma ProcessData_outputChan s d w :
  processors.outputChan (processors.ProcessData s d w)
  = processors.outputChan w.
Proof.
  unfold processors.ProcessData. destruct (ParseJSON d) as [wd err].
  destruct (_ && _).
  - destruct (NewJSON _) as [dd err'].
    by rewrite insertData_outputChan, KillPipelineIfErr_outputChan.
  - apply insertData_outputChan.
Qed.

Lemma forEach_outputChan s d w :
  processors.outputChan (processors.forEach s d w)
  = processors.outputChan w ++ [d].
Proof. unfold processors.forEach. simpl. by rewrite ProcessData_outputChan. Qed.

(** The composite forwards every result batch of the reader, in order. *)
Lemma composite_outputChan s d w :
  processors.outputChan (processors.SQLReaderSQLiteWriter_ProcessData s d w)
  = processors.outputChan w ++ QueryData d.
Proof.
  unfold processors.SQLReaderSQLiteWriter_ProcessData.
  generalize (QueryData d) as batches. intros batches. revert w.
  induction batches as [|b batches IH]; intros w; simpl.
  - by rewrite app_nil_r.
  - by rewrite IH, forEach_outputChan, <- app_assoc.
Qed.
End StageFacts.

(** C2, as the claim words it, fails: the writer stage writes the item
    [{a:1}] without reporting an error and sends nothing downstream. *)
Lemma writer_sends_nothing :
  ¬ @forwardsOnSuccess okStore value decoded
      (processors.NewSQLiteWriter "s") (VObj [("a", VNum 1)]) emptyWorld.
Proof.
  unfold forwardsOnSuccess. intros Hclaim.
  assert (Hsent : processors.outputChan
            (@processors.ProcessData okStore value decoded
               (processors.NewSQLiteWriter "s") (VObj [("a", VNum 1)]) emptyWorld)
          = [VObj [("a", VNum 1)]]).
  { apply Hclaim. vm_compute. reflexivity. }
  vm_compute in Hsent. discriminate.
Qed.

(** C2, amended: when normalization, compilation and execution succeed (no
    error is reported on the kill channel), [SQLiteWriter.ProcessData] sends
    nothing on the output channel; it is the callback of the Reader+Writer
    composite that sends the result batch it was given, unmodified, after
    the writer stage has returned, so that the composite forwards the result
    batches of the reader in order. *)
Theorem writer_is_sink_composite_forwards `{Store} {JSON : Type}
    `{DataPkg JSON} `{SQLReader JSON}
    (s : processors.SQLiteWriter) (d : JSON) (w : processors.world JSON) :
  processors.killChan (processors.ProcessData s d w) = processors.killChan w →
  processors.outputChan (processors.ProcessData s d w) = processors.outputChan w ∧
  processors.outputChan (processors.forEach s d w) = processors.outputChan w ++ [d] ∧
  processors.outputChan (processors.SQLReaderSQLiteWriter_ProcessData s d w)
  = processors.outputChan w ++ QueryData d.
Proof.
  intros _. split; [apply ProcessData_outputChan|].
  split; [apply forEach_outputChan | apply composite_outputChan].
Qed.

Lemma writer_is_sink_composite_forwards_witness :
  processors.outputChan
    (@processors.ProcessData okStore value decoded
       (processors.NewSQLiteWriter "s") (VObj [("a", VNum 1)]) emptyWorld) = [] ∧
  processors.outputChan
    (@processors.forEach okStore value decoded
       (processors.NewSQLiteWriter "s") (VObj [("a", VNum 1)]) emptyWorld)
  = [VObj [("a", VNum 1)]].
Proof.
  destruct (@writer_is_sink_composite_forwards okStore value decoded echoReader
              (processors.NewSQLiteWriter "s") (VObj [("a", VNum 1)]) emptyWorld)
    as (Hsink & Hfwd & _).
  - vm_compute. reflexivity.
  - split; [exact Hsink | exact Hfwd].
Defined.

(** C3, as the claim words it, fails: the envelope with an empty table name
    is written and no error at all is reported. *)
Lemma empty_table_envelope_not_rejected :
  ¬ @incompleteEnvelopeRejected okStore value decoded
      (processors.NewSQLiteWriter "s") emptyTableEnvelope emptyWorld.
Proof.
  unfold incompleteEnvelopeRejected. intros Hclaim.
  destruct (Hclaim eq_refl (or_introl eq_refl)) as [msg Hin].
  vm_compute in Hin. by apply elem_of_nil in Hin.
Qed.

(** C3, amended: an item that decodes as a routed envelope but whose table
    name is empty or whose payload is absent takes the normal-data path of
    lines 261-263: the item itself is normalized and written as a plain
    batch to the statically configured table, and the only error reported is
    the one, if any, of that insert. *)
Theorem incomplete_envelope_is_plain_batch `{Store} {JSON : Type} `{DataPkg JSON}
    (s : processors.SQLiteWriter) (d : JSON) (w : processors.world JSON) :
  (ParseJSON d).2 = None →
  SQLWriterData.TableName (ParseJSON d).1 = ""
  ∨ SQLWriterData.InsertData (ParseJSON d).1 = VNil →
  processors.ProcessData s d w
  = processors.insertData s d (processors.TableName s) w.
Proof.
  intros _ Hmissing. unfold processors.ProcessData.
  destruct (ParseJSON d) as [wd err]. simpl in Hmissing.
  destruct Hmissing as [-> | ->]; simpl.
  - by rewrite andb_false_r.
  - by rewrite andb_false_r.
Qed.

Lemma incomplete_envelope_is_plain_batch_witness :
  @processors.ProcessData okStore value decoded
    (processors.NewSQLiteWriter "s") emptyTableEnvelope emptyWorld
  = {| processors.db :=
         [EvBegin;
          EvPrepare "INSERT OR REPLACE INTO s(payload,table) VALUES(?,?)" true;
          EvExec "INSERT OR REPLACE INTO s(payload,table) VALUES(?,?)"
            [VArr [VObj [("a", VNum 1)]]; VStr ""] true;
          EvClose; EvCommit];
       processors.outputChan := [];
       processors.killChan := [] |}.
Proof.
  rewrite (@incomplete_envelope_is_plain_batch okStore value decoded
             (processors.NewSQLiteWriter "s") emptyTableEnvelope emptyWorld
             eq_refl (or_introl eq_refl)).
  vm_compute. reflexivity.
Defined.


(** * Further properties of the code *)

(** ** The column list and the statement text *)

(** X1: the column list compiled by [buildSQLiteInsertSQL] is in ascending
    bytewise order, and a name is in it exactly when it is a key of some
    record of the batch or an entry of [preservedFields]. *)
Theorem columns_sorted_and_complete (objects : list object) (pfs : list string) :
  StronglySorted String.le (util.columns objects pfs) ∧
  ∀ c, c ∈ util.columns objects pfs ↔
       (∃ obj, obj ∈ objects ∧ is_Some (obj !! c)) ∨ c ∈ pfs.
Proof.
  split; [|intros c; apply elem_of_columns].
  apply Sorted_StronglySorted; [apply _ | apply columns_sorted].
Qed.

(** X2: the column list holds some name twice exactly when
    [preservedFields] repeats a name that is not a key of any record. *)
Theorem columns_distinct_iff (objects : list object) (pfs : list string) :
  NoDup (util.columns objects pfs) ↔
  NoDup (filter (fun pf => pf ∉ keys objects) pfs).
Proof.
  rewrite columns_unfold, sort_Strings_perm, NoDup_app. split.
  - by intros (_ & _ & Hnd).
  - intros Hnd. split; [apply NoDup_sortedColumns|]. split; [|done].
    intros c Hc%elem_of_sortedColumns [Hn _]%list_elem_of_filter. done.
Qed.

(** X3: when [preservedFields] repeats no name, the column list is the
    sorted sequence of the distinct names among the keys of the records and
    the preserved fields. *)
Theorem columns_without_repetition (objects : list object) (pfs : list string) :
  NoDup pfs →
  NoDup (util.columns objects pfs) ∧
  util.columns objects pfs
  = sort_Strings (elements (keys objects ∪ list_to_set pfs)).
Proof.
  intros Hnd. split; [by apply columns_NoDup | by apply columns_spec].
Qed.

Lemma columns_without_repetition_witness :
  util.columns batchIdName ["createdAt"] = ["createdAt"; "id"; "name"].
Proof.
  rewrite (proj2 (columns_without_repetition batchIdName ["createdAt"]
                    ltac:(repeat constructor; set_solver))).
  vm_compute. reflexivity.
Defined.

(** The statement text, whether or not the arguments can be gathered. *)
Lemma build_text (objects : list object) (tableName : string)
    (onDupKeyUpdate : bool) (primaryKeys preservedFields : list string) :
  (util.buildSQLiteInsertSQL objects tableName onDupKeyUpdate
     primaryKeys preservedFields).1.1 =
  (if onDupKeyUpdate then "INSERT OR REPLACE INTO " else "INSERT INTO ")
  +:+ tableName +:+ "(" +:+ Join (util.columns objects preservedFields) ","
  +:+ ") VALUES"
  +:+ Join (replicate (length objects)
              (rowGroup (placeholderOf tableName onDupKeyUpdate primaryKeys
                           preservedFields
                         <$> util.columns objects preservedFields))) ",".
Proof. by rewrite build_unfold. Qed.

(** X4: reordering the records of a batch changes neither the column list
    nor the text of the compiled statement. *)
Theorem statement_text_ignores_record_order (objects objects' : list object)
    (tableName : string) (onDupKeyUpdate : bool)
    (primaryKeys preservedFields : list string) :
  objects ≡ₚ objects' →
  util.columns objects preservedFields = util.columns objects' preservedFields ∧
  (util.buildSQLiteInsertSQL objects tableName onDupKeyUpdate
     primaryKeys preservedFields).1.1
  = (util.buildSQLiteInsertSQL objects' tableName onDupKeyUpdate
       primaryKeys preservedFields).1.1.
Proof.
  intros Hp. split; [by apply columns_perm|].
  by rewrite !build_text, (columns_perm _ _ _ Hp), (Permutation_length Hp).
Qed.

Lemma statement_text_ignores_record_order_witness :
  (util.buildSQLiteInsertSQL batchAB "t" false [] []).1.1
  = (util.buildSQLiteInsertSQL (reverse batchAB) "t" false [] []).1.1.
Proof.
  apply (statement_text_ignores_record_order batchAB (reverse batchAB)).
  symmetry. apply reverse_Permutation.
Defined.

(** ** Compilation errors *)

(** X5: compilation fails exactly when some record of the batch has no entry
    for a primary-key column among the columns the statement binds; the
    error then names a declared primary key, and no other error comes out of
    the compiler.  A record that holds an explicit null for the key is not
    missing it. *)
Theorem compile_fails_iff_key_missing (objects : list object)
    (tableName : string) (onDupKeyUpdate : bool)
    (primaryKeys preservedFields : list string) :
  ((util.buildSQLiteInsertSQL objects tableName onDupKeyUpdate
      primaryKeys preservedFields).2 ≠ None ↔
   lacksConsultedKey objects tableName onDupKeyUpdate
     primaryKeys preservedFields) ∧
  ∀ e, (util.buildSQLiteInsertSQL objects tableName onDupKeyUpdate
          primaryKeys preservedFields).2 = Some e →
       ∃ col obj, e = MissingKeyError col ∧ col ∈ primaryKeys ∧
                  obj ∈ objects ∧ obj !! col = None.
Proof.
  destruct (util.buildSQLiteInsertSQL objects tableName onDupKeyUpdate
              primaryKeys preservedFields) as [[sql vals] err] eqn:Hb.
  simpl. split; [split|].
  - destruct err as [e|]; [intros _|done].
    apply build_err_inv in Hb as (c & obj & -> & ? & ? & ? & ?).
    exists obj, c. rewrite rowTemplate_spec. done.
  - intros Hlacks. destruct (build_lacks _ _ _ _ _ Hlacks) as (c & obj & Herr & _).
    rewrite Hb in Herr. simpl in Herr. by rewrite Herr.
  - intros e ->. apply build_err_inv in Hb as (c & obj & -> & ? & ? & ? & ?).
    by exists c, obj.
Qed.



(** X7: a chunk that does not compile is never shown to the driver:
    [sqliteInsertObjects] returns the [MissingKeyError] and leaves the
    history of the connection as it was. *)
Theorem uncompiled_chunk_reaches_no_driver `{Store} (tr : list event)
    (objects : list object) (tableName : string) (onDupKeyUpdate : bool)
    (primaryKeys preservedFields : list string) :
  lacksConsultedKey objects tableName onDupKeyUpdate
    primaryKeys preservedFields →
  ∃ col,
    col ∈ primaryKeys ∧
    exec.sqliteInsertObjects tr objects tableName onDupKeyUpdate
      primaryKeys preservedFields = (Some (MissingKeyError col), tr).
Proof.
  intros Hlacks.
  destruct (build_lacks _ _ _ _ _ Hlacks) as (col & obj & Herr & _ & Hpk & _).
  exists col. split; [done|]. by apply sqliteInsertObjects_compile_error.
Qed.

Lemma uncompiled_chunk_reaches_no_driver_witness :
  ∃ col,
    col ∈ ["id"] ∧
    @exec.sqliteInsertObjects okStore [EvBegin] batchA "t" false ["id"] ["id"]
    = (Some (MissingKeyError col), [EvBegin]).
Proof.
  apply (@uncompiled_chunk_reaches_no_driver okStore).
  exists (record [("a", VNum 1)]), "id". repeat split.
  - by left.
  - by left.
  - by apply (list_elem_of_lookup_2 _ 1%nat).
Defined.

(** ** Chunking *)

Lemma chunks_spec {A} (n : nat) (l : list A) :
  (0 < n)%nat →
  concat (chunks n l) = l ∧
  Forall (fun c => (0 < length c ≤ n)%nat) (chunks n l) ∧
  ∀ i, (i * n < length l)%nat →
       chunks n l !! i = Some (take n (drop (i * n) l)).
Proof.
  intros Hn. remember (length l) as m eqn:Hm. revert l Hm.
  induction m as [m IH] using lt_wf_ind. intros l Hm.
  destruct l as [|x l]; [repeat split; [constructor | simpl in *; lia]|].
  rewrite chunks_cons by done.
  assert (Hlt : (length (drop n (x :: l)) < m)%nat).
  { subst m. rewrite length_drop. simpl. lia. }
  destruct (IH _ Hlt (drop n (x :: l)) eq_refl) as (Hcat & Hlen & Hlook).
  split; [|split].
  - simpl. by rewrite Hcat, take_drop.
  - constructor; [|done]. rewrite length_take. simpl. lia.
  - intros [|i] Hi; [done|]. simpl.
    rewrite Hlook by (rewrite length_drop; subst m; simpl in *; nia).
    by rewrite drop_drop.
Qed.

(** X8: with a positive chunk size the loop of [SQLiteInsertData] runs on
    consecutive slices that together are the batch, record for record and in
    order: the k-th slice is the [batchSize] records from index
    [k * batchSize] on (fewer at the end of the batch), none is empty and
    none is longer than [batchSize]. *)
Theorem chunk_loop_partitions_batch `{Store} (batchSize : Z)
    (Hpos : batchSize > 0) (objects : list object) (tableName : string)
    (onDupKeyUpdate : bool) (primaryKeys preservedFields : list string)
    (tr : list event) :
  let cs := chunks (Z.to_nat batchSize) objects in
  exec.chunkLoop batchSize Hpos objects tableName onDupKeyUpdate
    primaryKeys preservedFields 0 tr =
  match runChunks tr cs tableName onDupKeyUpdate
          primaryKeys preservedFields with
  | (Some e, tr') => (Some e, tr' ++ [EvRollback])
  | (None, tr') => (None, tr')
  end ∧
  concat cs = objects ∧
  Forall (fun c => (0 < length c ≤ Z.to_nat batchSize)%nat) cs ∧
  ∀ k, (k * Z.to_nat batchSize < length objects)%nat →
       cs !! k = Some (take (Z.to_nat batchSize)
                         (drop (k * Z.to_nat batchSize) objects)).
Proof.
  intros cs. split; [by rewrite chunkLoop_runChunks|].
  apply chunks_spec. lia.
Qed.

Lemma chunk_loop_partitions_batch_witness :
  concat (chunks (Z.to_nat 2) (objectsOf five).1) = (objectsOf five).1.
Proof.
  exact (proj1 (proj2 (@chunk_loop_partitions_batch okStore 2 eq_refl
                         (objectsOf five).1 "t" false [] [] []))).
Defined.

(** ** Calls of the executor *)

Lemma txStep_closed (evs : list event) (d : list (string * list value)) :
  Forall (fun ev => isTxEvent ev = false) evs →
  foldl txStep (None, d) evs = (None, d).
Proof.
  intros Hno. induction Hno as [|ev evs Hev _ IH]; [done|].
  simpl. by destruct ev as [| | sql args [|] | | |].
Qed.

Section AcceptedCalls.
Context `{Store}.
Hypothesis Haccepts : acceptsAll _.

Lemma sqliteInsertObjects_accepted (tr : list event) (c : list object)
    (tableName : string) (onDupKeyUpdate : bool)
    (primaryKeys preservedFields : list string) :
  (util.buildSQLiteInsertSQL c tableName onDupKeyUpdate
     primaryKeys preservedFields).2 = None →
  exec.sqliteInsertObjects tr c tableName onDupKeyUpdate
    primaryKeys preservedFields
  = (None, tr ++ chunkEvents (stmtOf c tableName onDupKeyUpdate
                                primaryKeys preservedFields)).
Proof.
  destruct Haccepts as (_ & Hprep & Hexec).
  unfold exec.sqliteInsertObjects, stmtOf, chunkEvents.
  destruct (util.buildSQLiteInsertSQL _ _ _ _ _) as [[sql vals] err].
  simpl. intros ->. rewrite Hprep.
  destruct (Hexec (tr ++ [EvPrepare sql true]) sql vals) as (He & Hid & Hrows).
  destruct (Exec _ sql vals) as [res err]. simpl in *. subst err.
  rewrite Hid, Hrows. by rewrite <- !app_assoc.
Qed.

Lemma runChunks_accepted (cs : list (list object)) (tableName : string)
    (onDupKeyUpdate : bool) (primaryKeys preservedFields : list string)
    (tr : list event) :
  Forall (fun c => (util.buildSQLiteInsertSQL c tableName onDupKeyUpdate
                      primaryKeys preservedFields).2 = None) cs →
  runChunks tr cs tableName onDupKeyUpdate primaryKeys preservedFields
  = (None, tr ++ (((fun c => stmtOf c tableName onDupKeyUpdate primaryKeys
                               preservedFields) <$> cs) ≫= chunkEvents)).
Proof.
  intros Hall. revert tr. induction Hall as [|c cs Hc _ IH]; intros tr; simpl.
  - by rewrite app_nil_r.
  - rewrite sqliteInsertObjects_accepted by done. rewrite IH.
    by rewrite <- app_assoc.
Qed.
End AcceptedCalls.

(** X9: with a positive chunk size a call that gets its transaction is all
    or nothing.  It never panics; its events are one begin, events that
    neither open nor close a transaction, and one end: the commit when the
    call returns nil, and then the statements compiled for the chunks are
    what the transaction leaves, in chunk order; the rollback when it returns
    an error, and then the transaction leaves nothing. *)
Theorem batched_call_is_all_or_nothing `{Store} {JSON : Type} `{DataPkg JSON}
    (tr : list event) (d : JSON) (tableName : string) (onDupKeyUpdate : bool)
    (primaryKeys preservedFields : list string) (batchSize : Z)
    (objects : list object) :
  preservedFields = [] ∨ primaryKeys ≠ [] →
  ObjectsFromJSON d = (objects, None) →
  Beginx tr = None →
  batchSize > 0 →
  let res := exec.SQLiteInsertData tr d tableName onDupKeyUpdate
               primaryKeys preservedFields batchSize in
  let stmts := (fun c => stmtOf c tableName onDupKeyUpdate primaryKeys
                           preservedFields)
               <$> chunks (Z.to_nat batchSize) objects in
  ∃ mid,
    Forall (fun ev => isTxEvent ev = false) mid ∧
    ((res = (Return None, tr ++ EvBegin :: mid ++ [EvCommit]) ∧
      mid = stmts ≫= chunkEvents ∧
      written (EvBegin :: mid ++ [EvCommit]) = stmts)
     ∨
     (∃ e, res = (Return (Some e), tr ++ EvBegin :: mid ++ [EvRollback]) ∧
           written (EvBegin :: mid ++ [EvRollback]) = [])).
Proof.
  intros Hconfig Hparse Hbegin Hpos res stmts. subst res.
  rewrite (SQLiteInsertData_batched tr d tableName onDupKeyUpdate
             primaryKeys preservedFields objects Hconfig Hparse Hbegin) by done.
  destruct (runChunks _ _ _ _ _ _) as [r tr'] eqn:Hrun.
  apply runChunks_inv in Hrun as (mid & -> & Hno & Hok).
  exists mid. split; [done|]. destruct r as [e|].
  - right. exists e. split; [by rewrite <- !app_assoc|].
    by apply written_rolled_back.
  - left. specialize (Hok eq_refl). fold stmts in Hok.
    split; [by rewrite <- !app_assoc|]. split; [done|].
    rewrite Hok. apply written_committed.
Qed.

Lemma batched_call_is_all_or_nothing_witness :
  ∃ mid,
    Forall (fun ev => isTxEvent ev = false) mid ∧
    ((@exec.SQLiteInsertData secondExecFails value decoded [] five "t" false
        [] [] 2 = (Return None, [] ++ EvBegin :: mid ++ [EvCommit]) ∧
      mid = ((fun c => stmtOf c "t" false [] [])
             <$> chunks (Z.to_nat 2) (objectsOf five).1) ≫= chunkEvents ∧
      written (EvBegin :: mid ++ [EvCommit])
      = (fun c => stmtOf c "t" false [] [])
        <$> chunks (Z.to_nat 2) (objectsOf five).1)
     ∨
     (∃ e, @exec.SQLiteInsertData secondExecFails value decoded [] five "t"
             false [] [] 2
           = (Return (Some e), [] ++ EvBegin :: mid ++ [EvRollback]) ∧
           written (EvBegin :: mid ++ [EvRollback]) = [])).
Proof.
  apply (@batched_call_is_all_or_nothing secondExecFails value decoded
           [] five "t" false [] [] 2 (objectsOf five).1).
  - by left.
  - reflexivity.
  - reflexivity.
  - reflexivity.
Defined.

(** X10: with a positive chunk size an empty batch opens a transaction and
    commits it at once: no statement is compiled, prepared or executed, and
    the call returns nil. *)
Theorem empty_batch_commits_empty_transaction `{Store} {JSON : Type}
    `{DataPkg JSON} (tr : list event) (d : JSON) (tableName : string)
    (onDupKeyUpdate : bool) (primaryKeys preservedFields : list string)
    (batchSize : Z) :
  preservedFields = [] ∨ primaryKeys ≠ [] →
  ObjectsFromJSON d = ([], None) →
  Beginx tr = None →
  batchSize > 0 →
  exec.SQLiteInsertData tr d tableName onDupKeyUpdate primaryKeys
    preservedFields batchSize = (Return None, tr ++ [EvBegin; EvCommit]).
Proof.
  intros Hconfig Hparse Hbegin Hpos.
  rewrite (SQLiteInsertData_batched tr d tableName onDupKeyUpdate
             primaryKeys preservedFields [] Hconfig Hparse Hbegin) by done.
  simpl. by rewrite <- app_assoc.
Qed.

Lemma empty_batch_commits_empty_transaction_witness :
  @exec.SQLiteInsertData okStore value decoded [] (VArr []) "t" true [] [] 100
  = (Return None, [EvBegin; EvCommit]).
Proof.
  apply (@empty_batch_commits_empty_transaction okStore value decoded
           [] (VArr []) "t" true [] [] 100).
  - by left.
  - reflexivity.
  - reflexivity.
  - reflexivity.
Defined.

Lemma SQLiteInsertData_accepted `{Store} {JSON : Type} `{DataPkg JSON}
    (tr : list event) (d : JSON) (tableName : string) (onDupKeyUpdate : bool)
    (primaryKeys preservedFields : list string) (batchSize : Z)
    (objects : list object) :
  acceptsAll _ →
  preservedFields = [] ∨ primaryKeys ≠ [] →
  ObjectsFromJSON d = (objects, None) →
  batchSize > 0 →
  (∀ obj pk, obj ∈ objects → pk ∈ primaryKeys → is_Some (obj !! pk)) →
  exec.SQLiteInsertData tr d tableName onDupKeyUpdate primaryKeys
    preservedFields batchSize
  = (Return None,
     tr ++ EvBegin
        :: (((fun c => stmtOf c tableName onDupKeyUpdate primaryKeys
                         preservedFields)
             <$> chunks (Z.to_nat batchSize) objects) ≫= chunkEvents)
        ++ [EvCommit]).
Proof.
  intros Haccepts Hconfig Hparse Hpos Hkeys.
  rewrite (SQLiteInsertData_batched tr d tableName onDupKeyUpdate
             primaryKeys preservedFields objects Hconfig Hparse)
    by (done || apply Haccepts).
  rewrite runChunks_accepted; [by rewrite <- !app_assoc | done |].
  apply Forall_forall. intros c Hc.
  destruct (util.buildSQLiteInsertSQL c tableName onDupKeyUpdate
              primaryKeys preservedFields) as [[sql vals] [e|]] eqn:Hb; [|done].
  apply build_err_inv in Hb as (col & obj & -> & Hobj & Hpk & Hnone & _).
  destruct (Hkeys obj col) as [v Hv]; [|done|congruence].
  rewrite <- (proj1 (chunks_spec (Z.to_nat batchSize) objects ltac:(lia))).
  apply list_elem_of_In, in_concat. exists c.
  split; by apply list_elem_of_In.
Qed.

(** X11: with a positive chunk size, a configuration that passes the check,
    a driver that accepts every call and a batch in which every record has an
    entry for every primary key, the call returns nil, and its events are the
    begin, the prepare, execute and close of one statement per chunk in
    chunk order, and the commit: every chunk is written. *)
Theorem accepted_batch_is_written `{Store} {JSON : Type} `{DataPkg JSON}
    (tr : list event) (d : JSON) (tableName : string) (onDupKeyUpdate : bool)
    (primaryKeys preservedFields : list string) (batchSize : Z)
    (objects : list object) :
  acceptsAll _ →
  preservedFields = [] ∨ primaryKeys ≠ [] →
  ObjectsFromJSON d = (objects, None) →
  batchSize > 0 →
  (∀ obj pk, obj ∈ objects → pk ∈ primaryKeys → is_Some (obj !! pk)) →
  let stmts := (fun c => stmtOf c tableName onDupKeyUpdate primaryKeys
                           preservedFields)
               <$> chunks (Z.to_nat batchSize) objects in
  exec.SQLiteInsertData tr d tableName onDupKeyUpdate primaryKeys
    preservedFields batchSize
  = (Return None, tr ++ EvBegin :: (stmts ≫= chunkEvents) ++ [EvCommit]) ∧
  written (EvBegin :: (stmts ≫= chunkEvents) ++ [EvCommit]) = stmts.
Proof.
  intros Haccepts Hconfig Hparse Hpos Hkeys stmts.
  split; [by apply SQLiteInsertData_accepted | apply written_committed].
Qed.

Lemma accepted_batch_is_written_witness :
  @exec.SQLiteInsertData okStore value decoded [] five "t" false [] [] 2
  = (Return None,
     [] ++ EvBegin
        :: (((fun c => stmtOf c "t" false [] [])
             <$> chunks (Z.to_nat 2) (objectsOf five).1) ≫= chunkEvents)
        ++ [EvCommit]).
Proof.
  refine (proj1 (@accepted_batch_is_written okStore value decoded [] five "t"
                   false [] [] 2 (objectsOf five).1 _ _ _ _ _)).
  - by repeat split.
  - by left.
  - reflexivity.
  - reflexivity.
  - intros obj pk _ Hpk. by apply elem_of_nil in Hpk.
Defined.

(** X12: with chunk size 0 or negative, a call that gets its transaction
    commits it before anything is compiled: its events are the begin, the
    commit, and then what [sqliteInsertObjects] adds for the whole batch.
    No rollback is issued, also when the call returns an error, and the
    committed transaction holds no statement. *)
Theorem unbatched_call_commits_first `{Store} {JSON : Type} `{DataPkg JSON}
    (tr : list event) (d : JSON) (tableName : string) (onDupKeyUpdate : bool)
    (primaryKeys preservedFields : list string) (batchSize : Z)
    (objects : list object) :
  preservedFields = [] ∨ primaryKeys ≠ [] →
  ObjectsFromJSON d = (objects, None) →
  Beginx tr = None →
  batchSize ≤ 0 →
  let res := exec.SQLiteInsertData tr d tableName onDupKeyUpdate
               primaryKeys preservedFields batchSize in
  ∃ err evs,
    res = (Return err, tr ++ [EvBegin; EvCommit] ++ evs) ∧
    exec.sqliteInsertObjects (tr ++ [EvBegin; EvCommit]) objects tableName
      onDupKeyUpdate primaryKeys preservedFields
    = (err, (tr ++ [EvBegin; EvCommit]) ++ evs) ∧
    Forall (fun ev => isTxEvent ev = false) evs ∧
    written ([EvBegin; EvCommit] ++ evs) = [].
Proof.
  intros Hconfig Hparse Hbegin Hneg res. subst res.
  rewrite (SQLiteInsertData_unbatched tr d tableName onDupKeyUpdate
             primaryKeys preservedFields objects Hconfig Hparse Hbegin) by done.
  destruct (exec.sqliteInsertObjects _ _ _ _ _ _) as [err tr'] eqn:Hrun.
  pose proof (sqliteInsertObjects_inv _ _ _ _ _ _ _ _ Hrun)
    as (evs & -> & Hno & _).
  exists err, evs. simpl. split; [by rewrite <- app_assoc|].
  split; [done|]. split; [done|].
  change ((foldl txStep (None, []) evs).2 = []).
  by rewrite txStep_closed.
Qed.

Lemma unbatched_call_commits_first_witness :
  ∃ err evs,
    @exec.SQLiteInsertData okStore value decoded [] five "t" false [] [] 0
    = (Return err, [] ++ [EvBegin; EvCommit] ++ evs) ∧
    @exec.sqliteInsertObjects okStore ([] ++ [EvBegin; EvCommit])
      (objectsOf five).1 "t" false [] []
    = (err, ([] ++ [EvBegin; EvCommit]) ++ evs) ∧
    Forall (fun ev => isTxEvent ev = false) evs ∧
    written ([EvBegin; EvCommit] ++ evs) = [].
Proof.
  apply (@unbatched_call_commits_first okStore value decoded [] five "t"
           false [] [] 0 (objectsOf five).1).
  - by left.
  - reflexivity.
  - reflexivity.
  - lia.
Defined.

(** ** The writer stage *)

Section StageCalls.
Context `{Store} {JSON : Type} `{DataPkg JSON}.
Implicit Types (s : processors.SQLiteWriter) (d : JSON) (w : processors.world JSON).

Lemma insertData_reports_at_most_one s d (tableName : string) w :
  ∃ errs,
    processors.killChan (processors.insertData s d tableName w)
    = processors.killChan w ++ errs ∧ (length errs ≤ 1)%nat.
Proof.
  unfold processors.insertData.
  destruct (exec.SQLiteInsertData _ _ _ _ _ _ _) as [[[e|]|e] tr]; simpl.
  - exists [e]. split; [done | simpl; lia].
  - exists []. split; [by rewrite app_nil_r | simpl; lia].
  - exists [e]. split; [done | simpl; lia].
Qed.

Lemma ProcessData_normal_path s d w :
  SQLWriterData.TableName (ParseJSON d).1 = "" →
  processors.ProcessData s d w
  = processors.insertData s d (processors.TableName s) w.
Proof.
  intros Htable. unfold processors.ProcessData.
  destruct (ParseJSON d) as [wd err]. simpl in Htable. rewrite Htable. simpl.
  by rewrite andb_false_r.
Qed.
End StageCalls.

(** X13: when the driver refuses to open the transaction, [MustBegin]
    panics inside [SQLiteInsertData]; [ProcessData] recovers the panic and
    reports that error, once, on the kill channel.  The store and the output
    channel are left as they were. *)
Theorem refused_begin_is_recovered `{Store} {JSON : Type} `{DataPkg JSON}
    (s : processors.SQLiteWriter) (d : JSON) (w : processors.world JSON)
    (e : error) :
  SQLWriterData.TableName (ParseJSON d).1 = "" →
  processors.PreservedFields s = [] ∨ processors.PrimaryKeys s ≠ [] →
  (ObjectsFromJSON d).2 = None →
  Beginx (processors.db w) = Some e →
  exec.SQLiteInsertData (processors.db w) d (processors.TableName s)
    (processors.OnDupKeyUpdate s) (processors.PrimaryKeys s)
    (processors.PreservedFields s) (processors.BatchSize s)
  = (Panic e, processors.db w) ∧
  processors.ProcessData s d w
  = {| processors.db := processors.db w;
       processors.outputChan := processors.outputChan w;
       processors.killChan := processors.killChan w ++ [e] |}.
Proof.
  intros Htable Hconfig Hparse Hbegin.
  assert (Hpanic :
    exec.SQLiteInsertData (processors.db w) d (processors.TableName s)
      (processors.OnDupKeyUpdate s) (processors.PrimaryKeys s)
      (processors.PreservedFields s) (processors.BatchSize s)
    = (Panic e, processors.db w)).
  { unfold exec.SQLiteInsertData. rewrite config_accepted by done.
    destruct (ObjectsFromJSON d) as [objects err]. simpl in Hparse.
    subst err. by rewrite Hbegin. }
  split; [done|].
  rewrite ProcessData_normal_path by done.
  unfold processors.insertData. by rewrite Hpanic.
Qed.

Lemma refused_begin_is_recovered_witness :
  @processors.ProcessData refusingStore value decoded
    (processors.NewSQLiteWriter "s") one emptyWorld
  = {| processors.db := [];
       processors.outputChan := [];
       processors.killChan := [] ++ [StoreError "database is locked"] |}.
Proof.
  refine (proj2 (@refused_begin_is_recovered refusingStore value decoded
                   (processors.NewSQLiteWriter "s") one emptyWorld
                   (StoreError "database is locked") _ _ _ _)).
  - reflexivity.
  - by left.
  - reflexivity.
  - reflexivity.
Defined.

(** X14: a writer configured with preserved fields and no primary key never
    touches the store: for every item, [ProcessData] leaves the connection
    and the output channel as they were, and the last error it reports is
    the configuration error. *)
Theorem misconfigured_writer_never_writes `{Store} {JSON : Type} `{DataPkg JSON}
    (s : processors.SQLiteWriter) (d : JSON) (w : processors.world JSON) :
  processors.PreservedFields s ≠ [] →
  processors.PrimaryKeys s = [] →
  processors.db (processors.ProcessData s d w) = processors.db w ∧
  processors.outputChan (processors.ProcessData s d w) = processors.outputChan w ∧
  last (processors.killChan (processors.ProcessData s d w)) = Some ConfigError.
Proof.
  intros Hpf Hpk.
  assert (Hrej : ∀ tr d' t,
    exec.SQLiteInsertData tr d' t (processors.OnDupKeyUpdate s)
      (processors.PrimaryKeys s) (processors.PreservedFields s)
      (processors.BatchSize s) = (Return (Some ConfigError), tr)).
  { intros tr d' t. unfold exec.SQLiteInsertData.
    by rewrite (proj2 (config_rejected _ _)). }
  unfold processors.ProcessData. destruct (ParseJSON d) as [wd err].
  destruct (_ && _).
  - destruct (NewJSON _) as [dd [e|]]; unfold processors.insertData;
      rewrite Hrej; simpl; by rewrite last_snoc.
  - unfold processors.insertData. rewrite Hrej. simpl. by rewrite last_snoc.
Qed.

Lemma misconfigured_writer_never_writes_witness :
  processors.db (@processors.ProcessData okStore value decoded
                   misconfigured one emptyWorld) = [].
Proof.
  refine (proj1 (@misconfigured_writer_never_writes okStore value decoded
                   misconfigured one emptyWorld _ _)).
  - discriminate.
  - reflexivity.
Defined.

(** X15: for a routed envelope with a table name and a payload, the insert
    goes to the table the envelope names and takes the payload as its batch;
    the table configured on the writer plays no part, so that two writers
    that differ only in their configured table process the item alike. *)
Theorem routed_envelope_overrides_table `{Store} {JSON : Type} `{DataPkg JSON}
    (s1 s2 : processors.SQLiteWriter) (d : JSON) (w : processors.world JSON) :
  (ParseJSON d).2 = None →
  SQLWriterData.TableName (ParseJSON d).1 ≠ "" →
  SQLWriterData.InsertData (ParseJSON d).1 ≠ VNil →
  processors.OnDupKeyUpdate s1 = processors.OnDupKeyUpdate s2 →
  processors.PrimaryKeys s1 = processors.PrimaryKeys s2 →
  processors.PreservedFields s1 = processors.PreservedFields s2 →
  processors.BatchSize s1 = processors.BatchSize s2 →
  processors.ProcessData s1 d w
  = processors.insertData s1
      (NewJSON (SQLWriterData.InsertData (ParseJSON d).1)).1
      (SQLWriterData.TableName (ParseJSON d).1)
      (processors.KillPipelineIfErr
         (NewJSON (SQLWriterData.InsertData (ParseJSON d).1)).2 w) ∧
  processors.ProcessData s1 d w = processors.ProcessData s2 d w.
Proof.
  intros Herr Htable Hpayload Hdup Hpk Hpf Hbs.
  assert (Hroute : ∀ s,
    processors.ProcessData s d w
    = processors.insertData s
        (NewJSON (SQLWriterData.InsertData (ParseJSON d).1)).1
        (SQLWriterData.TableName (ParseJSON d).1)
        (processors.KillPipelineIfErr
           (NewJSON (SQLWriterData.InsertData (ParseJSON d).1)).2 w)).
  { intros s. unfold processors.ProcessData.
    destruct (ParseJSON d) as [wd err]. simpl in *. subst err.
    rewrite (proj2 (String.eqb_neq _ _) Htable).
    destruct (SQLWriterData.InsertData wd) eqn:Hv; try done;
      simpl; by destruct (NewJSON _). }
  split; [apply Hroute|]. rewrite !Hroute.
  unfold processors.insertData. by rewrite Hdup, Hpk, Hpf, Hbs.
Qed.

Lemma routed_envelope_overrides_table_witness :
  @processors.ProcessData okStore value decoded
    (processors.NewSQLiteWriter "s") routedEnvelope emptyWorld
  = @processors.ProcessData okStore value decoded
      (processors.NewSQLiteWriter "other") routedEnvelope emptyWorld.
Proof.
  refine (proj2 (@routed_envelope_overrides_table okStore value decoded
                   (processors.NewSQLiteWriter "s")
                   (processors.NewSQLiteWriter "other")
                   routedEnvelope emptyWorld _ _ _ _ _ _ _));
    (reflexivity || discriminate).
Defined.

(** X16: [ProcessData] only adds to the kill channel, and adds at most two
    errors per item: at most one from re-encoding the payload of a routed
    envelope and at most one from the insert; when the re-encoding does not
    fail, at most one error is reported. *)
Theorem at_most_two_errors_per_item `{Store} {JSON : Type} `{DataPkg JSON}
    (s : processors.SQLiteWriter) (d : JSON) (w : processors.world JSON) :
  ∃ errs,
    processors.killChan (processors.ProcessData s d w)
    = processors.killChan w ++ errs ∧
    (length errs ≤ 2)%nat ∧
    ((NewJSON (SQLWriterData.InsertData (ParseJSON d).1)).2 = None →
     (length errs ≤ 1)%nat).
Proof.
  unfold processors.ProcessData. destruct (ParseJSON d) as [wd err]. simpl.
  destruct (_ && _).
  - destruct (NewJSON _) as [dd [e|]]; simpl.
    + destruct (insertData_reports_at_most_one s dd (SQLWriterData.TableName wd)
                  {| processors.db := processors.db w;
                     processors.outputChan := processors.outputChan w;
                     processors.killChan := processors.killChan w ++ [e] |})
        as (errs & Heq & Hlen).
      exists (e :: errs). simpl in Heq.
      split; [by rewrite Heq, <- app_assoc|]. split; [simpl; lia | done].
    + destruct (insertData_reports_at_most_one s dd
                  (SQLWriterData.TableName wd) w) as (errs & Heq & Hlen).
      exists errs. split; [done|]. split; [lia | done].
  - destruct (insertData_reports_at_most_one s d (processors.TableName s) w)
      as (errs & Heq & Hlen).
    exists errs. split; [done|]. split; [lia | done].
Qed.

(** ** More on errors *)

(** X17: a payload that the normalizer rejects is reported before the store
    is touched: the executor returns the normalizer's error and the history
    of the connection is as it was, with no transaction begun. *)
Theorem parse_error_before_store `{Store} {JSON : Type} `{DataPkg JSON}
    (tr : list event) (d : JSON) (tableName : string) (onDupKeyUpdate : bool)
    (primaryKeys preservedFields : list string) (batchSize : Z) (e : error) :
  preservedFields = [] ∨ primaryKeys ≠ [] →
  (ObjectsFromJSON d).2 = Some e →
  exec.SQLiteInsertData tr d tableName onDupKeyUpdate primaryKeys
    preservedFields batchSize = (Return (Some e), tr).
Proof.
  intros Hconfig Hparse. unfold exec.SQLiteInsertData.
  rewrite config_accepted by done.
  destruct (ObjectsFromJSON d) as [objects err]. simpl in Hparse. by subst err.
Qed.

Lemma parse_error_before_store_witness :
  @exec.SQLiteInsertData okStore value decoded [] (VStr "x") "t" true [] [] 100
  = (Return (Some (ParseError "unsupported data type")), []).
Proof.
  apply (@parse_error_before_store okStore value decoded).
  - by left.
  - reflexivity.
Defined.

(** X18: under replace semantics with at least one preserved field, a batch
    compiles exactly when every record has an entry for every primary key:
    the subquery of a preserved column binds them all. *)
Theorem replace_preserving_needs_every_key (objects : list object)
    (tableName : string) (primaryKeys preservedFields : list string) :
  preservedFields ≠ [] →
  (util.buildSQLiteInsertSQL objects tableName true
     primaryKeys preservedFields).2 = None ↔
  ∀ obj pk, obj ∈ objects → pk ∈ primaryKeys → is_Some (obj !! pk).
Proof.
  intros Hpf.
  destruct (util.buildSQLiteInsertSQL objects tableName true
              primaryKeys preservedFields) as [[sql vals] err] eqn:Hb.
  simpl. split.
  - intros ->. apply build_ok_inv in Hb as (_ & _ & Hall).
    intros obj pk Hobj Hpk. apply (Hall obj pk Hobj); [|done].
    destruct preservedFields as [|pf pfs]; [done|].
    apply list_elem_of_bind. exists pf. split.
    + unfold boundCols, preserved. simpl.
      by rewrite bool_decide_eq_true_2 by left.
    + apply elem_of_columns. right. by left.
  - intros Hkeys. destruct err as [e|]; [|done].
    apply build_err_inv in Hb as (c & obj & -> & Hobj & Hpk & Hnone & _).
    destruct (Hkeys obj c Hobj Hpk) as [v Hv]. congruence.
Qed.

Lemma replace_preserving_needs_every_key_witness :
  (util.buildSQLiteInsertSQL batchA "t" true ["id"] ["createdAt"]).2 = None ↔
  ∀ obj pk, obj ∈ batchA → pk ∈ ["id"] → is_Some (obj !! pk).
Proof.
  apply replace_preserving_needs_every_key. discriminate.
Defined.

(** X19: under InsertOnly a primary key is looked up only when it is a
    column of the statement: a batch compiles exactly when every record has
    an entry for every primary key that is a key of some record or a
    preserved field.  A primary key that no record carries is not missed. *)
Theorem insert_only_checks_listed_keys (objects : list object)
    (tableName : string) (primaryKeys preservedFields : list string) :
  (util.buildSQLiteInsertSQL objects tableName false
     primaryKeys preservedFields).2 = None ↔
  ∀ obj pk, obj ∈ objects → pk ∈ primaryKeys →
            pk ∈ util.columns objects preservedFields → is_Some (obj !! pk).
Proof.
  assert (Hbound : ∀ c cols,
    c ∈ cols ≫= boundCols false primaryKeys preservedFields ↔ c ∈ cols).
  { intros c cols. rewrite list_elem_of_bind. unfold boundCols, preserved.
    simpl. split.
    - by intros (c' & ->%list_elem_of_singleton & ?).
    - intros Hc. exists c. split; [by left | done]. }
  destruct (util.buildSQLiteInsertSQL objects tableName false
              primaryKeys preservedFields) as [[sql vals] err] eqn:Hb.
  simpl. split.
  - intros ->. apply build_ok_inv in Hb as (_ & _ & Hall).
    intros obj pk Hobj Hpk Hcol. apply (Hall obj pk Hobj); [|done].
    by apply Hbound.
  - intros Hkeys. destruct err as [e|]; [|done].
    apply build_err_inv in Hb as (c & obj & -> & Hobj & Hpk & Hnone & Hcol).
    apply (proj1 (Hbound _ _)) in Hcol.
    destruct (Hkeys obj c Hobj Hpk Hcol) as [v Hv]. congruence.
Qed.

(** ** The writer built by [NewSQLiteWriter] *)

(** X20: a writer as [NewSQLiteWriter] builds it (replace semantics, no
    primary key, no preserved field, chunks of 100), given a plain batch
    that normalizes and a driver that accepts every call, writes the batch
    in one transaction, chunk by chunk, with plain [INSERT OR REPLACE]
    statements; it reports no error and sends nothing downstream. *)
Theorem default_writer_writes_batch `{Store} {JSON : Type} `{DataPkg JSON}
    (tableName : string) (d : JSON) (w : processors.world JSON)
    (objects : list object) :
  acceptsAll _ →
  SQLWriterData.TableName (ParseJSON d).1 = "" →
  ObjectsFromJSON d = (objects, None) →
  let stmts := (fun c => stmtOf c tableName true [] []) <$> chunks 100 objects in
  processors.ProcessData (processors.NewSQLiteWriter tableName) d w
  = {| processors.db :=
         processors.db w ++ EvBegin :: (stmts ≫= chunkEvents) ++ [EvCommit];
       processors.outputChan := processors.outputChan w;
       processors.killChan := processors.killChan w |} ∧
  written (EvBegin :: (stmts ≫= chunkEvents) ++ [EvCommit]) = stmts ∧
  ∀ c, c ∈ chunks 100 objects →
       (stmtOf c tableName true [] []).1
       = "INSERT OR REPLACE INTO " +:+ tableName +:+ "("
         +:+ Join (util.columns c []) "," +:+ ") VALUES"
         +:+ Join (replicate (length c)
                     (rowGroup (replicate (length (util.columns c [])) "?"))) ",".
Proof.
  intros Haccepts Htable Hparse stmts. split; [|split].
  - rewrite ProcessData_normal_path by done.
    unfold processors.insertData. simpl.
    rewrite (SQLiteInsertData_accepted (processors.db w) d tableName true
               [] [] 100 objects); try done.
    + by left.
    + intros obj pk _ Hpk. by apply elem_of_nil in Hpk.
  - apply written_committed.
  - intros c _. unfold stmtOf. rewrite build_text. do 8 f_equal.
    apply fmap_const_replicate. intros col.
    unfold placeholderOf, preserved. simpl. done.
Qed.

Lemma default_writer_writes_batch_witness :
  @processors.ProcessData okStore value decoded
    (processors.NewSQLiteWriter "s") five emptyWorld
  = {| processors.db :=
         [] ++ EvBegin
            :: (((fun c => stmtOf c "s" true [] [])
                 <$> chunks 100 (objectsOf five).1) ≫= chunkEvents)
            ++ [EvCommit];
       processors.outputChan := [];
       processors.killChan := [] |}.
Proof.
  refine (proj1 (@default_writer_writes_batch okStore value decoded "s" five
                   emptyWorld (objectsOf five).1 _ _ _)).
  - by repeat split.
  - reflexivity.
  - reflexivity.
Defined.
